(** * EasyPost shipping client: the two-stage label workflow

    A shallow embedding of the class [EasyPostShippingClient] behind scripts/cli.ts
    and the properties of its pending-shipment workflow.

    Conventions of the embedding:
    - a JavaScript number is a binary64 float ([PrimFloat.float]);
    - an optional property ([x?: T], or a property that may be [undefined])
      is an [option];
    - the [Record<string, PendingShipment>] of the state file is a
      [gmap string PendingShipment]; reading [state.shipments[key]] finds
      an entry of the mapping or, failing that, what every object inherits
      under names such as [constructor] or [toString];
    - a method is a computation over a [World] (the backing file, whether
      it can be written, the log of calls made to external services, the
      clock) that returns a value or throws, in the monad [M];
    - the text of the backing file is abstracted by what [JSON.parse] makes
      of it: a syntax error, or the value it denotes, a [ShipmentState]
      whose [shipments] may be missing when the file holds JSON of another
      shape (the text [{}] for instance); the numbers of a stored parcel
      are those JSON can write ([NaN] and the infinities, which it writes
      as [null], are not weights or dimensions);
    - [String.prototype.toLowerCase] belongs to the runtime and is a field
      of the [Host], like the clock and the answers of the services. *)

From Stdlib Require Import Floats ZArith Lia Bool Ascii String List Sorted.
From stdpp Require Import gmap strings list fin_maps.

#[local] Set Warnings "-inexact-float".

Open Scope float_scope.
Open Scope stdpp_scope.

(** ** Interfaces *)

Record Address := {
  name : option string;
  company : option string;
  street1 : string;
  street2 : option string;
  city : string;
  state : option string;
  zip : string;
  country : string;
  phone : option string;
  email : option string
}.

(** Lengths in cm, weight in kg. *)
Record Parcel := {
  length : option float;
  width : option float;
  height : option float;
  weight : float
}.

(** The interface declares [carrier: string]; the value is copied from the
    carrier's response, which the filter reads with [r.carrier?.], so it is
    kept optional. *)
Record Rate := {
  id : string;
  carrier : option string;
  service : string;
  rate : string;
  currency : string;
  delivery_days : option float;
  delivery_date : option string
}.

Inductive Status := pending | purchased | voided.

Record PendingShipment := {
  shipment_id : string;
  createdAt : string;
  shipment_orderId : option string;
  shipment_toAddress : Address;
  fromAddress : Address;
  shipment_parcel : Parcel;
  rates : list Rate;
  status : Status;
  trackingCode : option string;
  labelUrl : option string
}.

(** [state.shipments]: the mapping, or [undefined] when the state file
    holds JSON without it. *)
Inductive Shipments :=
| Mapping (m : gmap string PendingShipment)
| NoMapping.

#[global] Instance Shipments_empty : Empty Shipments := Mapping ∅.

Record ShipmentState := {
  shipments : Shipments;
  lastUpdated : string
}.

Record CreateShipmentOptions := {
  orderId : option string;
  toAddress : option Address;
  parcel : Parcel;
  carrier_filter : option string
}.

Record PurchasedLabel := {
  label_trackingCode : string;
  label_labelUrl : option string;
  label_carrier : option string;
  label_service : string;
  label_rate : string;
  label_currency : string
}.

Record CancelResult := { success : bool; message : string }.

#[global] Instance Status_eq_dec : EqDecision Status.
Proof. solve_decision. Defined.

(** ** What the external services exchange with the client *)

(** The parcel of a shipment request: ounces and inches. *)
Record ApiParcel := {
  api_weight : float;
  api_length : option float;
  api_width : option float;
  api_height : option float
}.

Record ShipmentParams := {
  to_address : Address;
  from_address : Address;
  api_parcel : ApiParcel;
  carrier_accounts : option (list string)
}.

Record ApiShipment := {
  api_id : string;
  api_rates : option (list Rate)
}.

Record PostageLabel := { label_url : string }.

Record BoughtShipment := {
  tracking_code : string;
  postage_label : option PostageLabel
}.

Record Refund := { refund_status : option string }.

(** [order.shippingAddress] of the order-manager's [get-order] output. *)
Record ShippingAddress := {
  firstName : option string;
  lastName : option string;
  sa_name : option string;
  sa_company : option string;
  address1 : string;
  address2 : option string;
  sa_city : string;
  provinceCode : option string;
  province : option string;
  sa_zip : string;
  countryCodeV2 : option string;
  countryCode : option string;
  sa_phone : option string
}.

Record Order := { shippingAddress : option ShippingAddress }.

(** ** Exceptions and results *)

(** The client throws plain [Error]s with a message; the runtime throws a
    [TypeError] when a property of [undefined] is read or written. *)
Inductive exn :=
| Error (msg : string)
| TypeError (msg : string).

Inductive outcome (A : Type) :=
| Ok (a : A)
| Throw (e : exn).
Arguments Ok {A} a.
Arguments Throw {A} e.

Definition exn_message (e : exn) : string :=
  match e with
  | Error m | TypeError m => m
  end.

(** ** The world a method runs in *)

Inductive FileText :=
| Raw (text : string)          (* not JSON: [JSON.parse] throws *)
| Json (st : ShipmentState).   (* the JSON text of a state *)

Inductive Backing :=
| Absent                       (* [existsSync] is false *)
| Unreadable                   (* the path exists, [readFileSync] throws *)
| Holds (t : FileText).

Inductive ExtCall :=
| GetOrder (orderId : string)
| ShipmentCreate (params : ShipmentParams)
| ShipmentBuy (shipmentId rateId : string)
| ShipmentRefund (shipmentId : string).

(** [write_error] is what [writeFileSync] throws at the state path, if the
    path cannot be opened for writing (a read-only file or file system, a
    directory at the path); the file is then as it was. *)
Record World := {
  disk : Backing;
  calls : list ExtCall;
  ticks : nat;
  write_error : option exn
}.

(** The answers of the outside: the runtime's [String.prototype.toLowerCase],
    the clock, the order manager, the carrier API, and the one
    configuration entry the workflow reads. *)
Record Host := {
  toLowerCase : string -> string;
  clock : nat -> string;
  shopify_cli_present : bool;
  get_order : string -> outcome Order;
  shipment_create : ShipmentParams -> outcome ApiShipment;
  shipment_buy : string -> string -> outcome BoughtShipment;
  shipment_refund : string -> outcome Refund;
  upsAccountId : option string
}.

Definition M (A : Type) : Type := World -> outcome A * World.

Definition ret {A} (a : A) : M A := fun w => (Ok a, w).

Definition throw {A} (e : exn) : M A := fun w => (Throw e, w).

Definition bind {A B} (m : M A) (k : A -> M B) : M B :=
  fun w =>
    match m w with
    | (Ok a, w') => k a w'
    | (Throw e, w') => (Throw e, w')
    end.

Definition try_catch {A} (m : M A) (handler : exn -> M A) : M A :=
  fun w =>
    match m w with
    | (Ok a, w') => (Ok a, w')
    | (Throw e, w') => handler e w'
    end.

Declare Scope flow_scope.
Delimit Scope flow_scope with flow.
Notation "x <- c ;; k" := (bind c (fun x => k))
  (at level 100, c at next level, right associativity) : flow_scope.
Notation "c ;;; k" := (bind c (fun _ => k))
  (at level 100, right associativity) : flow_scope.
Open Scope flow_scope.

(** [await] of a call to an external service: the call is logged, its
    answer is returned or thrown. *)
Definition external {A} (c : ExtCall) (answer : outcome A) : M A :=
  fun w =>
    (answer,
     {| disk := disk w; calls := calls w ++ [c]; ticks := ticks w;
        write_error := write_error w |}).

(** [new Date().toISOString()] *)
Definition now (h : Host) : M string :=
  fun w =>
    (Ok (clock h (ticks w)),
     {| disk := disk w; calls := calls w; ticks := S (ticks w);
        write_error := write_error w |}).

(** ** JavaScript values *)

(** Truthiness of a string that may be undefined, and of a number. *)
Definition truthy (s : option string) : bool :=
  match s with
  | Some s => negb (String.eqb s "")
  | None => false
  end.

Definition truthy_num (x : float) : bool := negb (is_zero x || is_nan x).

(** [a || b] on strings that may be undefined. *)
Definition or_else (a b : option string) : option string :=
  if truthy a then a else b.

(** [`${x}`] of a string that may be undefined. *)
Definition interpolate (s : option string) : string := default "undefined" s.

(** What [String.prototype.toLowerCase] does to a string of ASCII
    characters (the sample sessions use it; the runtime's function is a
    field of the [Host]). *)
Definition lower_ascii (c : ascii) : ascii :=
  let n := nat_of_ascii c in
  if (65 <=? n)%nat && (n <=? 90)%nat then ascii_of_nat (n + 32) else c.

Fixpoint ascii_toLowerCase (s : string) : string :=
  match s with
  | EmptyString => EmptyString
  | String c s' => String (lower_ascii c) (ascii_toLowerCase s')
  end.

(** [String.prototype.includes] *)
Definition includes (s needle : string) : bool :=
  match String.index 0 needle s with
  | Some _ => true
  | None => false
  end.

(** [Array.prototype.sort(comparefn)]. The sort is stable, and [a] stays
    before [b] unless [comparefn(a, b) > 0] (a [NaN] result counts as [0]);
    for a consistent comparator this fixes the result, which the stable
    insertion sort below computes. *)
Fixpoint sort_insert {A} (comparefn : A -> A -> float) (a : A) (l : list A)
  : list A :=
  match l with
  | [] => [a]
  | b :: l' =>
      if 0 <? comparefn a b then b :: sort_insert comparefn a l'
      else a :: b :: l'
  end.

Definition sort {A} (comparefn : A -> A -> float) (l : list A) : list A :=
  foldr (sort_insert comparefn) [] l.

(** ** State management *)

Definition existsSync (d : Backing) : bool :=
  match d with
  | Absent => false
  | _ => true
  end.

Definition readFileSync : M FileText :=
  fun w =>
    match disk w with
    | Holds t => (Ok t, w)
    | Absent => (Throw (Error "ENOENT: no such file or directory"), w)
    | Unreadable => (Throw (Error "EACCES: permission denied"), w)
    end.

Definition JSON_parse (t : FileText) : M ShipmentState :=
  match t with
  | Json st => ret st
  | Raw _ => throw (Error "Unexpected token in JSON")
  end.

Definition writeFileSync (st : ShipmentState) : M unit :=
  fun w =>
    match write_error w with
    | Some e => (Throw e, w)
    | None =>
        (Ok tt,
         {| disk := Holds (Json st); calls := calls w; ticks := ticks w;
            write_error := write_error w |})
    end.

Definition empty_state (stamp : string) : ShipmentState :=
  {| shipments := ∅; lastUpdated := stamp |}.

Definition loadState (h : Host) : M ShipmentState :=
  fun w =>
    if negb (existsSync (disk w)) then
      (stamp <- now h;; ret (empty_state stamp)) w
    else
      try_catch
        (text <- readFileSync;; JSON_parse text)
        (fun _ => stamp <- now h;; ret (empty_state stamp)) w.

Definition saveState (h : Host) (st : ShipmentState) : M unit :=
  stamp <- now h;;
  writeFileSync {| shipments := shipments st; lastUpdated := stamp |}.

Definition getFromAddress : Address :=
  {| name := None;
     company := Some "YOUR_COMPANY";
     street1 := "YOUR_WAREHOUSE_ADDRESS_LINE_1";
     street2 := Some "YOUR_WAREHOUSE_ADDRESS_LINE_2";
     city := "YOUR_CITY";
     state := Some "";
     zip := "YOUR_POSTCODE";
     country := "GB";
     phone := Some "YOUR_PHONE_NUMBER";
     email := Some "YOUR_LOGISTICS_EMAIL" |}.

(** ** The shipment mapping *)

(** The names every object inherits from [Object.prototype]. *)
Definition Object_prototype : list string :=
  ["constructor"; "__defineGetter__"; "__defineSetter__"; "hasOwnProperty";
   "__lookupGetter__"; "__lookupSetter__"; "isPrototypeOf";
   "propertyIsEnumerable"; "toString"; "valueOf"; "__proto__";
   "toLocaleString"].

Definition inherited (key : string) : bool :=
  existsb (String.eqb key) Object_prototype.

(** What [state.shipments[key]] evaluates to: an entry of the mapping, an
    inherited function or object (truthy, without [status] or [rates]), or
    [undefined]. *)
Inductive Property :=
| Own (p : PendingShipment)
| Inherited
| Undefined.

Definition property (m : gmap string PendingShipment) (key : string) : Property :=
  match m !! key with
  | Some p => Own p
  | None => if inherited key then Inherited else Undefined
  end.

(** [state.shipments[key]] *)
Definition read_entry (st : ShipmentState) (key : string) : M Property :=
  match shipments st with
  | Mapping m => ret (property m key)
  | NoMapping =>
      throw (TypeError ("Cannot read properties of undefined (reading '"
                        +:+ key +:+ "')"))
  end.

(** [state.shipments[key] = p], for the identifiers the carrier gives
    (on the key [__proto__] the assignment would set the prototype of the
    mapping instead of an entry). *)
Definition assign_entry (st : ShipmentState) (key : string) (p : PendingShipment)
  : M ShipmentState :=
  match shipments st with
  | Mapping m =>
      ret {| shipments := Mapping (<[key := p]> m);
             lastUpdated := lastUpdated st |}
  | NoMapping =>
      throw (TypeError ("Cannot set properties of undefined (setting '"
                        +:+ key +:+ "')"))
  end.

(** The state after an assignment to a field of the entry [key], and after
    [delete state.shipments[key]]; both follow a successful read. *)
Definition with_entry (st : ShipmentState) (key : string) (p : PendingShipment)
  : ShipmentState :=
  match shipments st with
  | Mapping m =>
      {| shipments := Mapping (<[key := p]> m); lastUpdated := lastUpdated st |}
  | NoMapping => st
  end.

Definition without_entry (st : ShipmentState) (key : string) : ShipmentState :=
  match shipments st with
  | Mapping m =>
      {| shipments := Mapping (delete key m); lastUpdated := lastUpdated st |}
  | NoMapping => st
  end.

(** [shipment.status] of what the read found. *)
Definition property_status (shipment : Property) : option Status :=
  match shipment with
  | Own p => Some (status p)
  | _ => None
  end.

(** What [getRates] returns: [shipment.rates], which is [undefined] on an
    inherited object. *)
Inductive RatesValue :=
| Listed (l : list Rate)
| NotListed.

(** ** Unit conversions *)

Definition kgToOunces (kg : float) : float := kg * 35.274.

Definition cmToInches (cm : float) : float := cm * 0.3937.

(** ** Shopify integration *)

Definition SHOPIFY_CLI : string :=
  "/Users/USER/.claude/plugins/local-marketplace/shopify-order-manager/scripts/dist/cli.js".

(** [`${error.message || error}`] *)
Definition error_text (error : exn) : string :=
  if String.eqb (exn_message error) "" then
    match error with
    | Error _ => "Error"
    | TypeError _ => "TypeError"
    end
  else exn_message error.

(** [[a, b].filter(Boolean).join(" ")] *)
Definition join_truthy (parts : list (option string)) : string :=
  String.concat " " (omap (fun p => if truthy p then p else None) parts).

Definition address_of_order (addr : ShippingAddress) : Address :=
  {| name :=
       or_else (Some (join_truthy [firstName addr; lastName addr])) (sa_name addr);
     company := or_else (sa_company addr) None;
     street1 := address1 addr;
     street2 := or_else (address2 addr) None;
     city := sa_city addr;
     state := or_else (provinceCode addr) (or_else (province addr) (Some ""));
     zip := sa_zip addr;
     country :=
       default "GB" (or_else (countryCodeV2 addr)
                             (or_else (countryCode addr) (Some "GB")));
     phone := or_else (sa_phone addr) None;
     email := None |}.

Definition fetchShopifyOrderAddress (h : Host) (orderId : string) : M Address :=
  if negb (shopify_cli_present h) then
    throw (Error ("Shopify CLI not found at " +:+ SHOPIFY_CLI))
  else
    try_catch
      (order <- external (GetOrder orderId) (get_order h orderId);;
       match shippingAddress order with
       | None =>
           throw (Error ("Order " +:+ orderId +:+ " has no shipping address"))
       | Some addr => ret (address_of_order addr)
       end)
      (fun error =>
         if includes (exn_message error) "not found" then
           throw (Error ("Shopify order not found: " +:+ orderId))
         else
           throw (Error ("Failed to fetch Shopify order: " +:+ error_text error))).

(** ** Shipment operations *)

Section Workflow.

(** The global [parseFloat]. *)
Variable parseFloat : string -> float.

Variable h : Host.

(** [...(cm && { dim: this.cmToInches(cm) })] *)
Definition spread_inches (cm : option float) : option float :=
  match cm with
  | Some cm => if truthy_num cm then Some (cmToInches cm) else None
  | None => None
  end.

Definition shipmentParams (toAddress : Address) (options : CreateShipmentOptions)
  : ShipmentParams :=
  let fromAddress := getFromAddress in
  {| to_address :=
       {| name := name toAddress;
          company := company toAddress;
          street1 := street1 toAddress;
          street2 := street2 toAddress;
          city := city toAddress;
          state := state toAddress;
          zip := zip toAddress;
          country := country toAddress;
          phone := phone toAddress;
          email := email toAddress |};
     from_address :=
       {| name := Some "YOUR_COMPANY Logistics";
          company := company fromAddress;
          street1 := street1 fromAddress;
          street2 := street2 fromAddress;
          city := city fromAddress;
          state := state fromAddress;
          zip := zip fromAddress;
          country := country fromAddress;
          phone := phone fromAddress;
          email := email fromAddress |};
     api_parcel :=
       {| api_weight := kgToOunces (weight (parcel options));
          api_length := spread_inches (length (parcel options));
          api_width := spread_inches (width (parcel options));
          api_height := spread_inches (height (parcel options)) |};
     carrier_accounts :=
       if truthy (upsAccountId h) then Some [default "" (upsAccountId h)]
       else None |}.

(** [!options.carrier || r.carrier?.toLowerCase() === options.carrier.toLowerCase()] *)
Definition carrier_matches (options : CreateShipmentOptions) (r : Rate) : bool :=
  negb (truthy (carrier_filter options))
  || match carrier r, carrier_filter options with
     | Some c, Some wanted =>
         String.eqb (toLowerCase h c) (toLowerCase h wanted)
     | _, _ => false
     end.

Definition copy_rate (r : Rate) : Rate :=
  {| id := id r;
     carrier := carrier r;
     service := service r;
     rate := rate r;
     currency := currency r;
     delivery_days := delivery_days r;
     delivery_date := delivery_date r |}.

(** [(a, b) => parseFloat(a.rate) - parseFloat(b.rate)] *)
Definition by_price (a b : Rate) : float :=
  parseFloat (rate a) - parseFloat (rate b).

(** [(shipment.rates || []).filter(...).map(...).sort(...)] *)
Definition extract_rates (options : CreateShipmentOptions) (shipment : ApiShipment)
  : list Rate :=
  sort by_price
    (map copy_rate
       (List.filter (carrier_matches options)
          (default [] (api_rates shipment)))).

Definition NO_RATES : string :=
  "No shipping rates available for this shipment. Check addresses and carrier configuration.".

(** The destination address: the first branch of [createShipment]. *)
Definition destination (options : CreateShipmentOptions) : M Address :=
  if truthy (orderId options) then
    fetchShopifyOrderAddress h (default "" (orderId options))
  else
    match toAddress options with
    | Some address => ret address
    | None => throw (Error "Either orderId or toAddress must be provided")
    end.

Definition createShipment (options : CreateShipmentOptions) : M PendingShipment :=
  toAddress <- destination options;;
  let fromAddress := getFromAddress in
  let params := shipmentParams toAddress options in
  shipment <- external (ShipmentCreate params) (shipment_create h params);;
  let rates := extract_rates options shipment in
  if (List.length rates =? 0)%nat then throw (Error NO_RATES)
  else
    created <- now h;;
    let pendingShipment :=
      {| shipment_id := api_id shipment;
         createdAt := created;
         shipment_orderId := orderId options;
         shipment_toAddress := toAddress;
         fromAddress := fromAddress;
         shipment_parcel := parcel options;
         rates := rates;
         status := pending;
         trackingCode := None;
         labelUrl := None |} in
    st <- loadState h;;
    st' <- assign_entry st (api_id shipment) pendingShipment;;
    saveState h st';;;
    ret pendingShipment.

(** [pendingShipment.status = ...; .trackingCode = ...; .labelUrl = ...] *)
Definition mark_purchased (p : PendingShipment) (label : PurchasedLabel)
  : PendingShipment :=
  {| shipment_id := shipment_id p;
     createdAt := createdAt p;
     shipment_orderId := shipment_orderId p;
     shipment_toAddress := shipment_toAddress p;
     fromAddress := fromAddress p;
     shipment_parcel := shipment_parcel p;
     rates := rates p;
     status := purchased;
     trackingCode := Some (label_trackingCode label);
     labelUrl := label_labelUrl label |}.

Definition buyLabel (shipmentId rateId : string) : M PurchasedLabel :=
  st <- loadState h;;
  pendingShipment <- read_entry st shipmentId;;
  match pendingShipment with
  | Undefined =>
      throw (Error ("Shipment " +:+ shipmentId +:+ " not found in pending shipments"))
  | Inherited =>
      throw (TypeError "Cannot read properties of undefined (reading 'find')")
  | Own pendingShipment =>
      if decide (status pendingShipment = purchased) then
        throw (Error ("Shipment " +:+ shipmentId +:+ " already purchased. Tracking: "
                      +:+ interpolate (trackingCode pendingShipment)))
      else
        match find (fun r => String.eqb (id r) rateId) (rates pendingShipment) with
        | None =>
            throw (Error ("Rate " +:+ rateId +:+ " not found for shipment "
                          +:+ shipmentId +:+ ". Available rates: "
                          +:+ String.concat ", " (map id (rates pendingShipment))))
        | Some rate0 =>
            purchasedShipment <-
              external (ShipmentBuy shipmentId rateId)
                       (shipment_buy h shipmentId rateId);;
            let label :=
              {| label_trackingCode := tracking_code purchasedShipment;
                 label_labelUrl := label_url <$> postage_label purchasedShipment;
                 label_carrier := carrier rate0;
                 label_service := service rate0;
                 label_rate := rate rate0;
                 label_currency := currency rate0 |} in
            saveState h
              (with_entry st shipmentId (mark_purchased pendingShipment label));;;
            ret label
        end
  end.

Definition cancelShipment (shipmentId : string) : M CancelResult :=
  st <- loadState h;;
  shipment <- read_entry st shipmentId;;
  match shipment with
  | Undefined =>
      ret {| success := false;
             message := "Shipment " +:+ shipmentId +:+ " not found" |}
  | _ =>
      if decide (property_status shipment = Some purchased) then
        ret {| success := false;
               message := "Cannot cancel purchased shipment. Use void-label to request refund." |}
      else
        saveState h (without_entry st shipmentId);;;
        ret {| success := true;
               message := "Shipment cancelled. No charges incurred." |}
  end.

Definition getRates (shipmentId : string) : M RatesValue :=
  st <- loadState h;;
  shipment <- read_entry st shipmentId;;
  match shipment with
  | Undefined => throw (Error ("Shipment " +:+ shipmentId +:+ " not found"))
  | Own shipment => ret (Listed (rates shipment))
  | Inherited => ret NotListed
  end.

(** [state.shipments[shipmentId].status = "voided"] *)
Definition mark_voided (p : PendingShipment) : PendingShipment :=
  {| shipment_id := shipment_id p;
     createdAt := createdAt p;
     shipment_orderId := shipment_orderId p;
     shipment_toAddress := shipment_toAddress p;
     fromAddress := fromAddress p;
     shipment_parcel := shipment_parcel p;
     rates := rates p;
     status := voided;
     trackingCode := trackingCode p;
     labelUrl := labelUrl p |}.

Definition voidLabel (shipmentId : string) : M CancelResult :=
  try_catch
    (refund <-
       external (ShipmentRefund shipmentId) (shipment_refund h shipmentId);;
     st <- loadState h;;
     shipment <- read_entry st shipmentId;;
     match shipment with
     | Own shipment =>
         saveState h (with_entry st shipmentId (mark_voided shipment))
     | Inherited =>
         (* the status lands on the inherited object, not in the mapping *)
         saveState h st
     | Undefined => ret tt
     end;;;
     ret {| success := true;
            message :=
              "Refund requested. Status: "
              +:+ default "submitted"
                    (or_else (refund_status refund) (Some "submitted")) |})
    (fun error =>
       ret {| success := false;
              message := "Void failed: " +:+ error_text error |}).

End Workflow.

(** ** Vocabulary of the statements *)

(** What [loadState] makes of the backing file. *)
Definition loaded_state (d : Backing) (stamp : string) : ShipmentState :=
  match d with
  | Holds (Json st) => st
  | _ => empty_state stamp
  end.

(** The shipment mapping of the store (none when the file holds a state
    without it), and whether the file holds a state without it. *)
Definition stored (d : Backing) : gmap string PendingShipment :=
  match shipments (loaded_state d "") with
  | Mapping m => m
  | NoMapping => ∅
  end.

Definition misshapen (d : Backing) : bool :=
  match shipments (loaded_state d "") with
  | Mapping _ => false
  | NoMapping => true
  end.

Definition status_of (w : World) (shipmentId : string) : option Status :=
  status <$> stored (disk w) !! shipmentId.

(** One operation of the workflow, and the world it leaves. *)
Inductive Op :=
| Create (options : CreateShipmentOptions)
| Buy (shipmentId rateId : string)
| Cancel (shipmentId : string)
| Rates (shipmentId : string)
| Void (shipmentId : string).

Definition step (parseFloat : string -> float) (h : Host) (op : Op) (w : World)
  : World :=
  match op with
  | Create options => snd (createShipment parseFloat h options w)
  | Buy shipmentId rateId => snd (buyLabel h shipmentId rateId w)
  | Cancel shipmentId => snd (cancelShipment h shipmentId w)
  | Rates shipmentId => snd (getRates h shipmentId w)
  | Void shipmentId => snd (voidLabel h shipmentId w)
  end.

(** The status changes of a stored record that the data model lists. *)
Inductive listed_transition : Op -> Status -> option Status -> Prop :=
| listed_buy shipmentId rateId :
    listed_transition (Buy shipmentId rateId) pending (Some purchased)
| listed_cancel shipmentId :
    listed_transition (Cancel shipmentId) pending None
| listed_void shipmentId :
    listed_transition (Void shipmentId) purchased (Some voided).

(** The status changes the operations perform, from the world [w]:
    [buyLabel] after the purchase succeeded, [voidLabel] after the refund
    succeeded, [createShipment] under the identifier the carrier gave the
    shipment it quoted for the resolved destination. *)
Inductive performed_transition (h : Host) (w : World)
  : Op -> string -> Status -> option Status -> Prop :=
| performed_buy shipmentId rateId s bought :
    s <> purchased ->
    shipment_buy h shipmentId rateId = Ok bought ->
    performed_transition h w (Buy shipmentId rateId) shipmentId s (Some purchased)
| performed_cancel shipmentId s :
    s <> purchased ->
    performed_transition h w (Cancel shipmentId) shipmentId s None
| performed_void shipmentId s refund :
    shipment_refund h shipmentId = Ok refund ->
    performed_transition h w (Void shipmentId) shipmentId s (Some voided)
| performed_create options address w1 shipment s :
    destination h options w = (Ok address, w1) ->
    shipment_create h (shipmentParams h address options) = Ok shipment ->
    performed_transition h w (Create options) (api_id shipment) s (Some pending).

(** The worlds left by a logged external call, a reading of the clock, and
    a [saveState] of a shipment mapping. *)
Definition logged (c : ExtCall) (w : World) : World :=
  {| disk := disk w; calls := calls w ++ [c]; ticks := ticks w;
     write_error := write_error w |}.

Definition tick (w : World) : World :=
  {| disk := disk w; calls := calls w; ticks := S (ticks w);
     write_error := write_error w |}.

Definition write (h : Host) (m : gmap string PendingShipment) (w : World) : World :=
  {| disk := Holds (Json {| shipments := Mapping m;
                            lastUpdated := clock h (ticks w) |});
     calls := calls w;
     ticks := S (ticks w);
     write_error := write_error w |}.

(** The world [loadState] leaves: the clock is read when the file is unusable. *)
Definition after_load (w : World) : World :=
  match disk w with
  | Holds (Json _) => w
  | _ => tick w
  end.

(** The record [createShipment] stores and returns. *)
Definition new_shipment (options : CreateShipmentOptions) (toAddress : Address)
    (shipment : ApiShipment) (created : string) (rates : list Rate)
  : PendingShipment :=
  {| shipment_id := api_id shipment;
     createdAt := created;
     shipment_orderId := orderId options;
     shipment_toAddress := toAddress;
     fromAddress := getFromAddress;
     shipment_parcel := parcel options;
     rates := rates;
     status := pending;
     trackingCode := None;
     labelUrl := None |}.

(** Ascending order of the parsed prices. *)
Definition price_le (parseFloat : string -> float) (a b : Rate) : Prop :=
  (parseFloat (rate a) <=? parseFloat (rate b)) = true.

Definition priced (parseFloat : string -> float) (r : Rate) : Prop :=
  is_nan (parseFloat (rate r)) = false.

(** A float of the given sign that is neither zero nor [NaN]. *)
Definition signed (s : bool) (f : spec_float) : Prop :=
  match f with
  | S754_finite s' _ _ | S754_infinity s' => s' = s
  | _ => False
  end.

(** The mantissa of [m * 2^e] at the smaller of the exponents [e] and [e']. *)
Definition aligned (m : positive) (e e' : Z) : Z :=
  Zpos (fst (shl_align m e (Z.min e e'))).

(** The carrier-name test of the rate filter, in the spec's words: the
    carrier and the filter are equal up to case, that is, once the runtime
    has put both in lower case. *)
Definition same_carrier (h : Host) (wanted : string) (r : Rate) : bool :=
  match carrier r with
  | Some c => String.eqb (toLowerCase h c) (toLowerCase h wanted)
  | None => false
  end.

(** A dimension as sent to the carrier: absent when unspecified, in inches
    when specified (dimensions are positive). *)
Definition sent_in_inches (cm sent : option float) : Prop :=
  match cm with
  | None => sent = None
  | Some cm => (0 <? cm) = true -> sent = Some (cm * 0.3937)
  end.

Definition MISSING_DESTINATION : string :=
  "Either orderId or toAddress must be provided".

(** ** A sample session *)

Module Sample.

Definition rate_std : Rate :=
  {| id := "rate_std"; carrier := Some "UPS"; service := "Standard";
     rate := "9.99"; currency := "GBP"; delivery_days := Some 3;
     delivery_date := None |}.

Definition rate_exp : Rate :=
  {| id := "rate_exp"; carrier := Some "UPS"; service := "Express Saver";
     rate := "15.50"; currency := "GBP"; delivery_days := Some 1;
     delivery_date := None |}.

Definition rate_dhl : Rate :=
  {| id := "rate_dhl"; carrier := Some "DHL"; service := "Parcel";
     rate := "12.75"; currency := "GBP"; delivery_days := Some 2;
     delivery_date := None |}.

(** [parseFloat] on the prices of the session. *)
Definition parseFloat (s : string) : float :=
  if String.eqb s "9.99" then 9.99
  else if String.eqb s "15.50" then 15.5
  else if String.eqb s "12.75" then 12.75
  else nan.

Definition london : Address :=
  {| name := Some "John Smith"; company := None; street1 := "123 Main Street";
     street2 := None; city := "London"; state := Some ""; zip := "SW1A 1AA";
     country := "GB"; phone := None; email := None |}.

Definition order_address : ShippingAddress :=
  {| firstName := Some "Jane"; lastName := Some "Doe"; sa_name := None;
     sa_company := None; address1 := "1 High Street"; address2 := None;
     sa_city := "Leeds"; provinceCode := None; province := None;
     sa_zip := "LS1 1AA"; countryCodeV2 := Some "GB"; countryCode := None;
     sa_phone := None |}.

Definition host : Host :=
  {| toLowerCase := ascii_toLowerCase;
     clock := fun _ => "2026-01-01T00:00:00.000Z";
     shopify_cli_present := true;
     get_order := fun _ => Ok {| shippingAddress := Some order_address |};
     shipment_create := fun _ =>
       Ok {| api_id := "shp_1";
             api_rates := Some [rate_exp; rate_dhl; rate_std] |};
     shipment_buy := fun _ _ =>
       Ok {| tracking_code := "1Z999AA10123456784";
             postage_label :=
               Some {| label_url := "https://labels.example/shp_1.png" |} |};
     shipment_refund := fun _ => Ok {| refund_status := Some "submitted" |};
     upsAccountId := None |}.

Definition first_run : World :=
  {| disk := Absent; calls := []; ticks := 0; write_error := None |}.

Definition box : Parcel :=
  {| length := Some 100; width := None; height := None; weight := 15 |}.

Definition options (wanted : option string) : CreateShipmentOptions :=
  {| orderId := None; toAddress := Some london; parcel := box;
     carrier_filter := wanted |}.

Definition created : PendingShipment :=
  {| shipment_id := "shp_1";
     createdAt := "2026-01-01T00:00:00.000Z";
     shipment_orderId := None;
     shipment_toAddress := london;
     fromAddress := getFromAddress;
     shipment_parcel := box;
     rates := [rate_std; rate_exp];
     status := pending;
     trackingCode := None;
     labelUrl := None |}.

(** The worlds after [create-shipment --carrier ups], [buy-label] and
    [void-label]. *)
Definition quoted : World :=
  snd (createShipment parseFloat host (options (Some "ups")) first_run).

Definition bought : World := snd (buyLabel host "shp_1" "rate_std" quoted).

Definition refunded : World := snd (voidLabel host "shp_1" bought).

End Sample.

(** ** Listing the pending shipments *)

Section Listing.

(** [new Date(s).getTime()], and [Object.values], which enumerates the
    entries of the mapping in the order of the keys of the file. *)
Variable getTime : string -> float.
Variable Object_values : gmap string PendingShipment -> list PendingShipment.

Variable h : Host.

(** [(a, b) => new Date(b.createdAt).getTime() - new Date(a.createdAt).getTime()] *)
Definition newest_first (a b : PendingShipment) : float :=
  getTime (createdAt b) - getTime (createdAt a).

(** [Object.values(state.shipments)] *)
Definition values_of (st : ShipmentState) : M (list PendingShipment) :=
  match shipments st with
  | Mapping m => ret (Object_values m)
  | NoMapping => throw (TypeError "Cannot convert undefined or null to object")
  end.

Definition listPending : M (list PendingShipment) :=
  st <- loadState h;;
  entries <- values_of st;;
  ret (sort newest_first
         (List.filter (fun s => bool_decide (status s = pending)) entries)).

End Listing.

(** ** The create-shipment command (scripts/cli.ts) *)

(** The arguments as the schema hands them to the handler: every option is
    optional but [toCountry], which has a default, and [weight]. *)
Record CreateShipmentArgs := {
  arg_orderId : option string;
  toName : option string;
  toStreet1 : option string;
  toStreet2 : option string;
  toCity : option string;
  toState : option string;
  toZip : option string;
  toCountry : string;
  toPhone : option string;
  toEmail : option string;
  arg_weight : float;
  arg_length : option float;
  arg_width : option float;
  arg_height : option float;
  arg_carrier : option string
}.

(** [data.orderId || (data.toStreet1 && data.toCity && data.toZip)] *)
Definition createShipmentSchema_refine (data : CreateShipmentArgs) : bool :=
  truthy (arg_orderId data)
  || (truthy (toStreet1 data) && truthy (toCity data) && truthy (toZip data)).

(** [...(length && { length })] *)
Definition spread_num (x : option float) : option float :=
  match x with
  | Some v => if truthy_num v then Some v else None
  | None => None
  end.

(** [...(carrier && { carrier })] *)
Definition spread_string (s : option string) : option string :=
  if truthy s then s else None.

(** The options the handler builds. [toStreet1!], [toCity!] and [toZip!]
    are strings for arguments that passed the refinement; an undefined one
    is read as the empty string. *)
Definition createOptions (args : CreateShipmentArgs) : CreateShipmentOptions :=
  {| orderId := spread_string (arg_orderId args);
     toAddress :=
       if truthy (arg_orderId args) then None
       else
         Some {| name := toName args;
                 company := None;
                 street1 := default "" (toStreet1 args);
                 street2 := toStreet2 args;
                 city := default "" (toCity args);
                 state := or_else (toState args) (Some "");
                 zip := default "" (toZip args);
                 country := toCountry args;
                 phone := toPhone args;
                 email := toEmail args |};
     parcel :=
       {| length := spread_num (arg_length args);
          width := spread_num (arg_width args);
          height := spread_num (arg_height args);
          weight := arg_weight args |};
     carrier_filter := spread_string (arg_carrier args) |}.

Definition create_shipment_command (parseFloat : string -> float) (h : Host)
    (args : CreateShipmentArgs) : M PendingShipment :=
  createShipment parseFloat h (createOptions args).

(** ** More vocabulary *)

(** What a record keeps for its lifetime: everything but the status, the
    tracking code and the label. *)
Definition same_quote (p p' : PendingShipment) : Prop :=
  shipment_id p' = shipment_id p
  /\ createdAt p' = createdAt p
  /\ shipment_orderId p' = shipment_orderId p
  /\ shipment_toAddress p' = shipment_toAddress p
  /\ fromAddress p' = fromAddress p
  /\ shipment_parcel p' = shipment_parcel p
  /\ rates p' = rates p.

(** An optional string that is not the empty string. *)
Definition not_blank (s : option string) : Prop := s <> Some "".

(** The external calls an operation may make. *)
Definition allowed_call (op : Op) (c : ExtCall) : Prop :=
  match op, c with
  | Create options, GetOrder order => orderId options = Some order
  | Create _, ShipmentCreate _ => True
  | Buy shipmentId rateId, ShipmentBuy shipmentId' rateId' =>
      shipmentId' = shipmentId /\ rateId' = rateId
  | Void shipmentId, ShipmentRefund shipmentId' => shipmentId' = shipmentId
  | _, _ => False
  end.


Definition starts_with (prefix s : string) : Prop :=
  exists rest, s = prefix +:+ rest.

Definition timed (getTime : string -> float) (p : PendingShipment) : Prop :=
  is_nan (getTime (createdAt p)) = false.

Definition newer_or_equal (getTime : string -> float) (a b : PendingShipment)
  : Prop :=
  (getTime (createdAt b) <=? getTime (createdAt a)) = true.

(** ** A second session: failures of the outside *)

Module Outage.

(** The carrier refuses the purchase and the refund; the order manager does
    not know the order. *)
Definition host : Host :=
  {| toLowerCase := ascii_toLowerCase;
     clock := fun _ => "2026-01-02T00:00:00.000Z";
     shopify_cli_present := true;
     get_order := fun _ => Throw (Error "Order not found");
     shipment_create := fun _ => Throw (Error "Address verification failed");
     shipment_buy := fun _ _ => Throw (Error "Insufficient funds");
     shipment_refund := fun _ => Throw (Error "Refund window closed");
     upsAccountId := None |}.

(** An order without a shipping address, and a missing order-manager. *)
Definition host_no_address : Host :=
  {| toLowerCase := ascii_toLowerCase;
     clock := fun _ => "2026-01-02T00:00:00.000Z";
     shopify_cli_present := true;
     get_order := fun _ => Ok {| shippingAddress := None |};
     shipment_create := shipment_create Sample.host;
     shipment_buy := shipment_buy Sample.host;
     shipment_refund := shipment_refund Sample.host;
     upsAccountId := None |}.

Definition host_no_cli : Host :=
  {| toLowerCase := ascii_toLowerCase;
     clock := fun _ => "2026-01-02T00:00:00.000Z";
     shopify_cli_present := false;
     get_order := get_order Sample.host;
     shipment_create := shipment_create Sample.host;
     shipment_buy := shipment_buy Sample.host;
     shipment_refund := shipment_refund Sample.host;
     upsAccountId := None |}.

(** The next day, the carrier quotes a second shipment. *)
Definition host_next : Host :=
  {| toLowerCase := ascii_toLowerCase;
     clock := fun _ => "2026-01-02T00:00:00.000Z";
     shopify_cli_present := true;
     get_order := get_order Sample.host;
     shipment_create := fun _ =>
       Ok {| api_id := "shp_2"; api_rates := Some [Sample.rate_dhl] |};
     shipment_buy := shipment_buy Sample.host;
     shipment_refund := shipment_refund Sample.host;
     upsAccountId := None |}.

Definition two_quotes : World :=
  snd (createShipment Sample.parseFloat host_next (Sample.options None)
         Sample.quoted).

Definition by_order : CreateShipmentOptions :=
  {| orderId := Some "1001"; toAddress := None; parcel := Sample.box;
     carrier_filter := None |}.

Definition getTime (s : string) : float :=
  if String.eqb s "2026-01-01T00:00:00.000Z" then 1767225600000
  else if String.eqb s "2026-01-02T00:00:00.000Z" then 1767312000000
  else nan.

Definition values (m : gmap string PendingShipment) : list PendingShipment :=
  (map_to_list m).*2.

(** The state path cannot be written: the file is read-only. *)
Definition EACCES : exn :=
  Error "EACCES: permission denied, open '/tmp/easypost-pending-shipments.json'".

Definition read_only (w : World) : World :=
  {| disk := disk w; calls := calls w; ticks := ticks w;
     write_error := Some EACCES |}.

(** A directory sits at the state path: it exists, and can be neither
    read nor written as a file. *)
Definition EISDIR : exn :=
  Error "EISDIR: illegal operation on a directory, open '/tmp/easypost-pending-shipments.json'".

Definition directory : World :=
  {| disk := Unreadable; calls := []; ticks := 0; write_error := Some EISDIR |}.

(** The state file holds JSON without a shipment mapping. *)
Definition bare : World :=
  {| disk := Holds (Json {| shipments := NoMapping; lastUpdated := "" |});
     calls := []; ticks := 0; write_error := None |}.

(** A runtime whose [toLowerCase] also knows the letter U with diaeresis:
    in UTF-8 the capital is the bytes 195 156, the small letter the bytes
    195 188. *)
Fixpoint latin_toLowerCase (s : string) : string :=
  match s with
  | EmptyString => EmptyString
  | String c s' =>
      match s' with
      | String d s'' =>
          if (Ascii.eqb c "195" && Ascii.eqb d "156")%bool then
            String c (String "188" (latin_toLowerCase s''))
          else String (lower_ascii c) (latin_toLowerCase s')
      | EmptyString => String (lower_ascii c) EmptyString
      end
  end.

Definition host_latin : Host :=
  {| toLowerCase := latin_toLowerCase;
     clock := clock Sample.host;
     shopify_cli_present := true;
     get_order := get_order Sample.host;
     shipment_create := shipment_create Sample.host;
     shipment_buy := shipment_buy Sample.host;
     shipment_refund := shipment_refund Sample.host;
     upsAccountId := None |}.

(** A rate of the carrier whose name is UPS with a diaeresis on the U, and
    the same name in small letters. *)
Definition rate_latin : Rate :=
  {| id := "rate_latin"; carrier := Some (String "195" (String "156" "PS"));
     service := "Standard"; rate := "9.99"; currency := "EUR";
     delivery_days := None; delivery_date := None |}.

Definition latin_small : string := String "195" (String "188" "ps").

Definition manual_args : CreateShipmentArgs :=
  {| arg_orderId := None; toName := Some "John Smith";
     toStreet1 := Some "123 Main Street"; toStreet2 := None;
     toCity := Some "London"; toState := None; toZip := Some "SW1A 1AA";
     toCountry := "GB"; toPhone := None; toEmail := None;
     arg_weight := 12; arg_length := None; arg_width := None;
     arg_height := None; arg_carrier := Some "UPS" |}.

Definition order_args : CreateShipmentArgs :=
  {| arg_orderId := Some "1001"; toName := Some "John Smith";
     toStreet1 := Some "123 Main Street"; toStreet2 := None;
     toCity := Some "London"; toState := None; toZip := Some "SW1A 1AA";
     toCountry := "GB"; toPhone := None; toEmail := None;
     arg_weight := 12; arg_length := None; arg_width := None;
     arg_height := None; arg_carrier := None |}.

End Outage.

(** * Properties *)

(** ** Binary64 arithmetic: the sign of a difference *)

Section SpecFacts.
Variables prec emax : Z.
Hypothesis prec_pos : (0 < prec)%Z.

Local Abbreviation emin := (SpecFloat.emin prec emax).
Local Abbreviation fexp := (SpecFloat.fexp prec emax).

Lemma digits2_size m : digits2_pos m = Pos.size m.
Proof. induction m; simpl; congruence. Qed.

Lemma digits2_log2 m : Zpos (digits2_pos m) = Z.succ (Z.log2 (Zpos m)).
Proof.
  rewrite digits2_size. destruct m; simpl; lia.
Qed.

Lemma digits2_bounds m :
  (2 ^ (Zpos (digits2_pos m) - 1) <= Zpos m < 2 ^ Zpos (digits2_pos m))%Z.
Proof.
  rewrite digits2_log2.
  replace (Z.succ (Z.log2 (Zpos m)) - 1)%Z with (Z.log2 (Zpos m)) by lia.
  apply Z.log2_spec. lia.
Qed.

Lemma iter_xO m d : Zpos (Pos.iter xO m d) = (Zpos m * 2 ^ Zpos d)%Z.
Proof.
  induction d using Pos.peano_ind.
  - simpl. lia.
  - rewrite Pos.iter_succ, Pos2Z.inj_xO, IHd, Pos2Z.inj_succ, Z.pow_succ_r by lia. lia.
Qed.

Lemma shl_align_fst m e e' :
  (e' <= e)%Z ->
  Zpos (fst (shl_align m e e')) = (Zpos m * 2 ^ (e - e'))%Z
  /\ snd (shl_align m e e') = e'.
Proof.
  intros Hle. unfold shl_align.
  destruct (e' - e)%Z eqn:E; cbn [fst snd].
  - replace (e - e')%Z with 0%Z by lia. rewrite Z.pow_0_r. split; lia.
  - lia.
  - rewrite iter_xO. replace (e - e')%Z with (Zpos p) by lia. split; lia.
Qed.

Lemma shr_1_m mrs : (0 <= shr_m mrs)%Z -> shr_m (shr_1 mrs) = (shr_m mrs / 2)%Z.
Proof.
  destruct mrs as [m r s]. simpl. intros Hm.
  destruct m as [|[p|p|]|p]; cbn [shr_1 shr_m]; try lia.
  - reflexivity.
  - apply Z.div_unique with 1%Z; lia.
  - apply Z.div_unique with 0%Z; lia.
  - reflexivity.
Qed.

Lemma iter_shr_1_m p : forall mrs,
  (0 <= shr_m mrs)%Z ->
  shr_m (SpecFloat.iter_pos shr_1 p mrs) = (shr_m mrs / 2 ^ Zpos p)%Z.
Proof.
  induction p as [p IH|p IH|]; intros mrs Hm; simpl SpecFloat.iter_pos.
  - assert (H1 : (0 <= shr_m (shr_1 mrs))%Z)
      by (rewrite shr_1_m by assumption; apply Z.div_pos; lia).
    assert (H2 : (0 <= shr_m (SpecFloat.iter_pos shr_1 p (shr_1 mrs)))%Z)
      by (rewrite IH by assumption; apply Z.div_pos; lia).
    rewrite IH, IH, shr_1_m by assumption.
    rewrite !Z.div_div by lia.
    f_equal. replace (Zpos p~1) with (1 + Zpos p + Zpos p)%Z by lia.
    rewrite !Z.pow_add_r by lia. ring.
  - assert (H2 : (0 <= shr_m (SpecFloat.iter_pos shr_1 p mrs))%Z)
      by (rewrite IH by assumption; apply Z.div_pos; lia).
    rewrite IH, IH by assumption.
    rewrite !Z.div_div by lia.
    f_equal. replace (Zpos p~0) with (Zpos p + Zpos p)%Z by lia.
    rewrite !Z.pow_add_r by lia. ring.
  - rewrite shr_1_m by assumption. reflexivity.
Qed.

(** A shift by fewer binary digits than the mantissa has keeps it positive. *)
Lemma shr_fexp_pos m e l :
  (0 < m)%Z -> (emin <= e)%Z ->
  (0 < shr_m (fst (shr_fexp prec emax m e l)))%Z
  /\ (emin <= snd (shr_fexp prec emax m e l))%Z.
Proof.
  intros Hm He. unfold shr_fexp, shr.
  destruct m as [|m|m]; try lia. cbn [Zdigits2].
  pose proof (digits2_bounds m) as [Hlo _].
  set (d := Zpos (digits2_pos m)) in *.
  assert (Hrec : shr_m (shr_record_of_loc (Zpos m) l) = Zpos m)
    by (destruct l as [|[]]; reflexivity).
  destruct (fexp (d + e) - e)%Z as [|n|n] eqn:En; cbn [fst snd].
  - rewrite Hrec. lia.
  - rewrite iter_shr_1_m by (rewrite Hrec; lia). rewrite Hrec.
    unfold SpecFloat.fexp in En.
    assert (Hn : (Zpos n <= d - 1)%Z) by lia.
    split; [|lia].
    apply Z.div_str_pos. split; [apply Z.pow_pos_nonneg; lia|].
    apply Z.le_trans with (2 ^ (d - 1))%Z; [|assumption].
    apply Z.pow_le_mono_r; lia.
  - rewrite Hrec. lia.
Qed.

Lemma round_nearest_even_ge m l : (m <= round_nearest_even m l)%Z.
Proof.
  destruct l as [|[]]; cbn [round_nearest_even]; try lia.
  destruct (Z.even m); lia.
Qed.

Lemma binary_round_aux_signed s m e l :
  (0 < m)%Z -> (emin <= e)%Z ->
  signed s (binary_round_aux prec emax s m e l).
Proof.
  intros Hm He. unfold binary_round_aux.
  destruct (shr_fexp_pos m e l Hm He) as [H1 H1'].
  destruct (shr_fexp prec emax m e l) as [mrs' e'] eqn:E1. cbn [fst snd] in *.
  pose proof (round_nearest_even_ge (shr_m mrs') (loc_of_shr_record mrs')) as Hr.
  set (m2 := round_nearest_even (shr_m mrs') (loc_of_shr_record mrs')) in *.
  assert (Hm2 : (0 < m2)%Z) by lia.
  destruct (shr_fexp_pos m2 e' loc_Exact Hm2 H1') as [H2 _].
  destruct (shr_fexp prec emax m2 e' loc_Exact) as [mrs'' e''] eqn:E2.
  cbn [fst] in H2.
  destruct (shr_m mrs'') as [|p|p]; try lia.
  destruct (e'' <=? emax - prec)%Z; reflexivity.
Qed.

Lemma fexp_ge_emin e : (emin <= fexp e)%Z.
Proof. unfold SpecFloat.fexp. lia. Qed.

Lemma binary_round_signed s m e :
  (emin <= e)%Z -> signed s (binary_round prec emax s m e).
Proof.
  intros He. unfold binary_round.
  destruct (shl_align m e (fexp (Zpos (digits2_pos m) + e))) as [mz ez] eqn:E.
  apply binary_round_aux_signed; [lia|].
  unfold shl_align in E.
  pose proof (fexp_ge_emin (Zpos (digits2_pos m) + e)).
  destruct (fexp (Zpos (digits2_pos m) + e) - e)%Z; injection E as <- <-; first [lia | apply fexp_ge_emin].
Qed.

(** Canonical mantissas: the exponent orders two floats of one sign. *)
Lemma canonical_lt mx ex my ey :
  canonical_mantissa prec emax mx ex = true ->
  canonical_mantissa prec emax my ey = true ->
  (ex < ey)%Z ->
  (Zpos mx < Zpos my * 2 ^ (ey - ex))%Z.
Proof.
  unfold canonical_mantissa, SpecFloat.fexp. intros Hx Hy Hlt.
  apply Z.eqb_eq in Hx, Hy.
  pose proof (digits2_bounds mx) as [_ Hxu].
  pose proof (digits2_bounds my) as [Hyl _].
  assert (Hdy : Zpos (digits2_pos my) = prec) by lia.
  assert (Hdx : (Zpos (digits2_pos mx) <= prec)%Z) by lia.
  rewrite Hdy in Hyl.
  assert (H1 : (2 ^ Zpos (digits2_pos mx) <= 2 ^ prec)%Z)
    by (apply Z.pow_le_mono_r; lia).
  assert (H2 : (2 ^ prec = 2 ^ (prec - 1) * 2 ^ 1)%Z)
    by (rewrite <- Z.pow_add_r by lia; f_equal; lia).
  assert (H3 : (2 ^ 1 <= 2 ^ (ey - ex))%Z) by (apply Z.pow_le_mono_r; lia).
  assert (H4 : (0 < 2 ^ (prec - 1))%Z) by (apply Z.pow_pos_nonneg; lia).
  nia.
Qed.

Lemma canonical_emin m e :
  canonical_mantissa prec emax m e = true -> (emin <= e)%Z.
Proof.
  unfold canonical_mantissa. intros H. apply Z.eqb_eq in H.
  rewrite <- H. apply fexp_ge_emin.
Qed.

Lemma aligned_compare mx ex my ey :
  canonical_mantissa prec emax mx ex = true ->
  canonical_mantissa prec emax my ey = true ->
  (aligned mx ex ey ?= aligned my ey ex)%Z =
  match (ex ?= ey)%Z with
  | Eq => Pos.compare_cont Eq mx my
  | c => c
  end.
Proof.
  intros Hx Hy. unfold aligned.
  destruct (shl_align_fst mx ex (Z.min ex ey)) as [-> _]; [lia|].
  destruct (shl_align_fst my ey (Z.min ey ex)) as [-> _]; [lia|].
  destruct (Z.compare_spec ex ey) as [Heq|Hlt|Hgt].
  - subst ey. rewrite Z.min_id, Z.sub_diag, Z.pow_0_r, !Z.mul_1_r. reflexivity.
  - rewrite Z.min_l, (Z.min_r ey ex) by lia.
    rewrite Z.sub_diag, Z.pow_0_r, Z.mul_1_r.
    apply Z.compare_lt_iff. now apply canonical_lt.
  - rewrite Z.min_r, (Z.min_l ey ex) by lia.
    rewrite Z.sub_diag, Z.pow_0_r, Z.mul_1_r.
    apply Z.compare_gt_iff. now apply canonical_lt.
Qed.

Lemma normalize_positive m e :
  (emin <= e)%Z ->
  SFltb (S754_zero false) (binary_normalize prec emax m e false) = (0 <? m)%Z.
Proof.
  intros He. destruct m as [|p|p]; cbn [binary_normalize]; [reflexivity| |].
  - pose proof (binary_round_signed false p e He) as H.
    destruct (binary_round prec emax false p e) as [|s| |s ? ?];
      cbn in H; try contradiction; subst s; reflexivity.
  - pose proof (binary_round_signed true p e He) as H.
    destruct (binary_round prec emax true p e) as [|s| |s ? ?];
      cbn in H; try contradiction; subst s; reflexivity.
Qed.

(** The sign test of a difference is the comparison of its operands. *)
Lemma SFsub_positive x y :
  SpecFloat.valid_binary prec emax x = true ->
  SpecFloat.valid_binary prec emax y = true ->
  x <> S754_nan -> y <> S754_nan ->
  SFltb (S754_zero false) (SFsub prec emax x y) = SFltb y x.
Proof.
  intros Vx Vy Nx Ny.
  destruct x as [sx|sx| |sx mx ex]; try congruence;
    destruct y as [sy|sy| |sy my ey]; try congruence;
    try (destruct sx, sy; reflexivity); try (destruct sx; reflexivity);
    try (destruct sy; reflexivity).
  cbn [SpecFloat.valid_binary] in Vx, Vy. unfold bounded in Vx, Vy.
  apply andb_prop in Vx as [Cx _], Vy as [Cy _].
  cbn [SFsub]. rewrite normalize_positive
    by (pose proof (canonical_emin _ _ Cx); pose proof (canonical_emin _ _ Cy); lia).
  fold (aligned mx ex ey). rewrite (Z.min_comm ex ey). fold (aligned my ey ex).
  pose proof (aligned_compare my ey mx ex Cy Cx) as Hc.
  unfold SFltb, SFcompare.
  assert (Hx : (0 < aligned mx ex ey)%Z) by (unfold aligned; lia).
  assert (Hy : (0 < aligned my ey ex)%Z) by (unfold aligned; lia).
  assert (Hb : forall (z : Z) (b : bool),
             (if b then (0 < z)%Z else (z <= 0)%Z) -> (0 <? z)%Z = b)
    by (intros z [] Hz; [apply Z.ltb_lt | apply Z.ltb_ge]; exact Hz).
  destruct (Z.compare_spec (aligned my ey ex) (aligned mx ex ey)) as [H|H|H];
    destruct sx, sy; cbn [cond_Zopp];
    destruct (ey ?= ex)%Z, (Pos.compare_cont Eq my mx);
    try discriminate Hc; cbn [CompOpp]; apply Hb; cbv beta iota; lia.
Qed.

End SpecFacts.

Lemma SFcompare_antisym x y :
  SFcompare y x = option_map CompOpp (SFcompare x y).
Proof.
  destruct x as [sx|sx| |sx mx ex], y as [sy|sy| |sy my ey]; cbn;
    try reflexivity; try (destruct sx; reflexivity);
    try (destruct sy; reflexivity); try (destruct sx, sy; reflexivity).
  change (Pos.compare_cont Eq) with Pos.compare.
  destruct sx, sy; try reflexivity;
    rewrite (Z.compare_antisym ex ey), (Pos.compare_antisym mx my);
    destruct (ex ?= ey)%Z; cbn; try reflexivity;
    destruct (mx ?= my)%positive; reflexivity.
Qed.

Lemma SFleb_trans x y z :
  SFleb x y = true -> SFleb y z = true -> SFleb x z = true.
Proof.
  unfold SFleb.
  destruct x as [sx|sx| |sx mx ex], y as [sy|sy| |sy my ey],
    z as [sz|sz| |sz mz ez]; cbn; try discriminate; try reflexivity;
    try (destruct sx; discriminate || reflexivity);
    try (destruct sx, sy; discriminate || reflexivity);
    try (destruct sy, sz; discriminate || reflexivity);
    try (destruct sx, sz; discriminate || reflexivity);
    try (destruct sx, sy, sz; discriminate || reflexivity).
  change (Pos.compare_cont Eq) with Pos.compare.
  destruct sx, sy, sz; try discriminate; try reflexivity;
    destruct (Z.compare_spec ex ey), (Z.compare_spec ey ez),
      (Z.compare_spec ex ez); try discriminate; try reflexivity; try lia;
    subst;
    destruct (Pos.compare_spec mx my), (Pos.compare_spec my mz),
      (Pos.compare_spec mx mz); cbn; try discriminate; try reflexivity; lia.
Qed.

Lemma Prim2SF_not_nan x : is_nan x = false -> Prim2SF x <> S754_nan.
Proof.
  intros H. unfold Prim2SF. rewrite H.
  destruct (is_zero x); [discriminate|].
  destruct (is_infinity x); [discriminate|].
  destruct (Z.frexp x) as [r e].
  destruct (shr_fexp prec emax _ _ _) as [mrs e'].
  destruct (shr_m mrs); discriminate.
Qed.

(** [comparefn(a, b) > 0] for [comparefn = (a, b) => a - b] on numbers. *)
Lemma sub_positive x y :
  is_nan x = false -> is_nan y = false -> (0 <? x - y)%float = (y <? x)%float.
Proof.
  intros Hx Hy. rewrite !ltb_spec, sub_spec.
  change (Prim2SF 0) with (S754_zero false).
  apply SFsub_positive; auto using Prim2SF_valid, Prim2SF_not_nan.
  reflexivity.
Qed.

Lemma ltb_negb_leb x y :
  is_nan x = false -> is_nan y = false -> (y <? x)%float = negb (x <=? y)%float.
Proof.
  intros Hx Hy. rewrite ltb_spec, leb_spec. unfold SFltb, SFleb.
  rewrite SFcompare_antisym.
  apply Prim2SF_not_nan in Hx, Hy.
  destruct (Prim2SF x) as [sx|sx| |sx mx ex], (Prim2SF y) as [sy|sy| |sy my ey];
    try congruence;
    destruct (SFcompare _ _) as [[]|] eqn:E; try reflexivity; cbn in E;
    try discriminate; try (destruct sx; discriminate);
    try (destruct sy; discriminate); try (destruct sx, sy; discriminate).
Qed.

Lemma leb_trans x y z :
  (x <=? y)%float = true -> (y <=? z)%float = true -> (x <=? z)%float = true.
Proof. rewrite !leb_spec. apply SFleb_trans. Qed.

Lemma ltb_leb x y : (x <? y) = true -> (x <=? y) = true.
Proof.
  rewrite ltb_spec, leb_spec. unfold SFltb, SFleb.
  destruct (SFcompare (Prim2SF x) (Prim2SF y)) as [[]|]; congruence.
Qed.

(** ** [Array.prototype.sort] with the price comparator *)

Section SortShape.
Context {A : Type}.
Implicit Types (f : A -> A -> float) (l : list A).

Lemma sort_insert_Forall (P : A -> Prop) f a l :
  Forall P (sort_insert f a l) <-> Forall P (a :: l).
Proof.
  induction l as [|b l IH]; cbn [sort_insert]; [reflexivity|].
  destruct (0 <? f a b); [|reflexivity].
  rewrite !Forall_cons, IH, Forall_cons. tauto.
Qed.

Lemma sort_Forall (P : A -> Prop) f l : Forall P (sort f l) <-> Forall P l.
Proof.
  induction l as [|a l IH]; [reflexivity|].
  unfold sort in *. cbn [foldr]. rewrite sort_insert_Forall, !Forall_cons, IH.
  reflexivity.
Qed.

Lemma sort_insert_length f a l :
  List.length (sort_insert f a l) = S (List.length l).
Proof.
  induction l as [|b l IH]; cbn [sort_insert]; [reflexivity|].
  destruct (0 <? f a b); cbn [List.length]; congruence.
Qed.

Lemma sort_length f l : List.length (sort f l) = List.length l.
Proof.
  induction l as [|a l IH]; [reflexivity|].
  unfold sort in *. cbn [foldr]. rewrite sort_insert_length. cbn. congruence.
Qed.

End SortShape.

Section SortFacts.
Context {A : Type}.
Variable key : A -> float.

Let comparefn (a b : A) : float := key a - key b.
Let le (a b : A) : Prop := (key a <=? key b) = true.
Let keyed (a : A) : Prop := is_nan (key a) = false.

Lemma sort_insert_sorted a l :
  keyed a -> Forall keyed l ->
  StronglySorted le l -> StronglySorted le (sort_insert comparefn a l).
Proof.
  intros Ha Hl Hs. induction Hs as [|b l Hs IH Hb]; cbn [sort_insert].
  - repeat constructor.
  - apply Forall_cons in Hl as [Hkb Hl]. unfold comparefn at 1.
    rewrite sub_positive by assumption.
    destruct (key b <? key a) eqn:Hlt.
    + constructor; [auto|].
      apply sort_insert_Forall. constructor; [|assumption].
      now apply ltb_leb.
    + assert (Hab : le a b).
      { unfold le. rewrite ltb_negb_leb in Hlt by assumption.
        now apply negb_false_iff in Hlt. }
      constructor; [now constructor|].
      constructor; [assumption|].
      eapply Forall_impl; [exact Hb|].
      intros c Hbc. unfold le in *. eapply leb_trans; eassumption.
Qed.

Lemma sort_sorted l :
  Forall keyed l -> StronglySorted le (sort comparefn l).
Proof.
  induction l as [|a l IH]; intros Hl; [constructor|].
  apply Forall_cons in Hl as [Ha Hl]. unfold sort in *. cbn [foldr].
  apply sort_insert_sorted; auto. now apply sort_Forall.
Qed.

End SortFacts.

(** ** State management *)

Lemma loadState_run h w :
  loadState h w = (Ok (loaded_state (disk w) (clock h (ticks w))), after_load w).
Proof. destruct w as [[| |[text|st]] c n e]; reflexivity. Qed.

Lemma saveState_run h st m w :
  shipments st = Mapping m ->
  saveState h st w =
  match write_error w with
  | Some e => (Throw e, tick w)
  | None => (Ok tt, write h m w)
  end.
Proof.
  intros E. destruct w as [d c n [e|]];
    unfold saveState, bind, now, writeFileSync; cbn; try rewrite E; reflexivity.
Qed.

Lemma saveState_after h st m w0 w :
  shipments st = Mapping m ->
  write_error w0 = write_error w ->
  saveState h st w0 =
  match write_error w with
  | Some e => (Throw e, tick w0)
  | None => (Ok tt, write h m w0)
  end.
Proof. intros E <-. now apply saveState_run. Qed.

Lemma after_load_disk w : disk (after_load w) = disk w.
Proof. destruct w as [[| |[text|st]] c n e]; reflexivity. Qed.

Lemma after_load_calls w : calls (after_load w) = calls w.
Proof. destruct w as [[| |[text|st]] c n e]; reflexivity. Qed.

Lemma after_load_write_error w : write_error (after_load w) = write_error w.
Proof. destruct w as [[| |[text|st]] c n e]; reflexivity. Qed.

Lemma loaded_shipments d stamp :
  shipments (loaded_state d stamp) =
  if misshapen d then NoMapping else Mapping (stored d).
Proof.
  unfold misshapen, stored.
  destruct d as [| |[text|st]]; try reflexivity.
  cbn. destruct (shipments st); reflexivity.
Qed.

(** C9. [loadState] returns for every condition of the backing file: it
    never throws, it leaves the file as it is, and when the file is absent,
    cannot be read, or does not parse, the state it returns has an empty
    shipment mapping; a file that parses is returned as parsed. *)
Theorem loadState_total h w :
  exists st w',
    loadState h w = (Ok st, w')
    /\ disk w' = disk w
    /\ match disk w with
       | Absent | Unreadable | Holds (Raw _) => shipments st = ∅
       | Holds (Json saved) => st = saved
       end.
Proof.
  exists (loaded_state (disk w) (clock h (ticks w))), (after_load w).
  split; [apply loadState_run|]. split; [apply after_load_disk|].
  destruct (disk w) as [| |[text|saved]]; reflexivity.
Qed.

Lemma stored_after_load w : stored (disk (after_load w)) = stored (disk w).
Proof. now rewrite after_load_disk. Qed.

Lemma stored_write h m w : stored (disk (write h m w)) = m.
Proof. reflexivity. Qed.

Lemma misshapen_write h m w : misshapen (disk (write h m w)) = false.
Proof. reflexivity. Qed.

(** A file that holds a record holds a shipment mapping, and the record is
    what a look-up of its key finds. *)
Lemma stored_shapely d shipmentId p :
  stored d !! shipmentId = Some p -> misshapen d = false.
Proof.
  unfold stored, misshapen. destruct (shipments (loaded_state d ""));
    [reflexivity|]. rewrite lookup_empty. discriminate.
Qed.

Lemma property_own m shipmentId p :
  m !! shipmentId = Some p -> property m shipmentId = Own p.
Proof. unfold property. now intros ->. Qed.

Lemma property_own_inv m shipmentId p :
  property m shipmentId = Own p -> m !! shipmentId = Some p.
Proof.
  unfold property. destruct (m !! shipmentId); [congruence|].
  destruct (inherited shipmentId); discriminate.
Qed.

Lemma property_not_own m shipmentId :
  property m shipmentId = Inherited \/ property m shipmentId = Undefined ->
  m !! shipmentId = None.
Proof.
  unfold property. destruct (m !! shipmentId); [|reflexivity].
  intros [|]; discriminate.
Qed.

Lemma property_plain m shipmentId :
  inherited shipmentId = false ->
  property m shipmentId =
  match m !! shipmentId with Some p => Own p | None => Undefined end.
Proof. unfold property. now intros ->. Qed.

Lemma after_load_present w shipmentId p :
  stored (disk w) !! shipmentId = Some p -> after_load w = w.
Proof.
  destruct w as [[| |[text|st]] c n e]; cbn; try reflexivity;
    rewrite lookup_empty; discriminate.
Qed.

(** ** The operations, run *)

Lemma getRates_run h shipmentId w :
  getRates h shipmentId w =
  if misshapen (disk w) then
    (Throw (TypeError ("Cannot read properties of undefined (reading '"
                       +:+ shipmentId +:+ "')")),
     after_load w)
  else
    match property (stored (disk w)) shipmentId with
    | Own shipment => (Ok (Listed (rates shipment)), after_load w)
    | Inherited => (Ok NotListed, after_load w)
    | Undefined =>
        (Throw (Error ("Shipment " +:+ shipmentId +:+ " not found")), after_load w)
    end.
Proof.
  unfold getRates, bind at 1. rewrite loadState_run.
  unfold bind, read_entry. rewrite loaded_shipments.
  destruct (misshapen (disk w)); [reflexivity|].
  cbn. destruct (property (stored (disk w)) shipmentId); reflexivity.
Qed.

Lemma cancelShipment_run h shipmentId w :
  cancelShipment h shipmentId w =
  if misshapen (disk w) then
    (Throw (TypeError ("Cannot read properties of undefined (reading '"
                       +:+ shipmentId +:+ "')")),
     after_load w)
  else
    let shipment := property (stored (disk w)) shipmentId in
    match shipment with
    | Undefined =>
        (Ok {| success := false;
               message := "Shipment " +:+ shipmentId +:+ " not found" |},
         after_load w)
    | _ =>
        if decide (property_status shipment = Some purchased) then
          (Ok {| success := false;
                 message := "Cannot cancel purchased shipment. Use void-label to request refund." |},
           after_load w)
        else
          match write_error w with
          | Some e => (Throw e, tick (after_load w))
          | None =>
              (Ok {| success := true;
                     message := "Shipment cancelled. No charges incurred." |},
               write h (delete shipmentId (stored (disk w))) (after_load w))
          end
    end.
Proof.
  unfold cancelShipment, bind at 1. rewrite loadState_run.
  unfold bind at 1, read_entry.
  pose proof (loaded_shipments (disk w) (clock h (ticks w))) as Hs.
  destruct (misshapen (disk w)); rewrite Hs; [reflexivity|].
  cbn [ret]. cbv zeta.
  assert (Hsave :
    saveState h (without_entry (loaded_state (disk w) (clock h (ticks w))) shipmentId)
      (after_load w) =
    match write_error w with
    | Some e => (Throw e, tick (after_load w))
    | None => (Ok tt, write h (delete shipmentId (stored (disk w))) (after_load w))
    end).
  { apply saveState_after; [|apply after_load_write_error].
    unfold without_entry. now rewrite Hs. }
  destruct (property (stored (disk w)) shipmentId) as [p| |]; [| |reflexivity];
    (destruct (decide _); [reflexivity|]);
    unfold bind; rewrite Hsave; destruct (write_error w); reflexivity.
Qed.

Lemma buyLabel_run h shipmentId rateId w :
  buyLabel h shipmentId rateId w =
  if misshapen (disk w) then
    (Throw (TypeError ("Cannot read properties of undefined (reading '"
                       +:+ shipmentId +:+ "')")),
     after_load w)
  else
    match property (stored (disk w)) shipmentId with
    | Undefined =>
        (Throw (Error ("Shipment " +:+ shipmentId +:+ " not found in pending shipments")),
         after_load w)
    | Inherited =>
        (Throw (TypeError "Cannot read properties of undefined (reading 'find')"),
         after_load w)
    | Own p =>
        if decide (status p = purchased) then
          (Throw (Error ("Shipment " +:+ shipmentId +:+ " already purchased. Tracking: "
                         +:+ interpolate (trackingCode p))),
           after_load w)
        else
          match find (fun r => String.eqb (id r) rateId) (rates p) with
          | None =>
              (Throw (Error ("Rate " +:+ rateId +:+ " not found for shipment "
                             +:+ shipmentId +:+ ". Available rates: "
                             +:+ String.concat ", " (map id (rates p)))),
               after_load w)
          | Some r =>
              let w1 := logged (ShipmentBuy shipmentId rateId) (after_load w) in
              match shipment_buy h shipmentId rateId with
              | Throw e => (Throw e, w1)
              | Ok bought =>
                  let label :=
                    {| label_trackingCode := tracking_code bought;
                       label_labelUrl := label_url <$> postage_label bought;
                       label_carrier := carrier r;
                       label_service := service r;
                       label_rate := rate r;
                       label_currency := currency r |} in
                  match write_error w with
                  | Some e => (Throw e, tick w1)
                  | None =>
                      (Ok label,
                       write h (<[shipmentId := mark_purchased p label]>
                                  (stored (disk w))) w1)
                  end
              end
          end
    end.
Proof.
  unfold buyLabel, bind at 1. rewrite loadState_run.
  unfold bind at 1, read_entry.
  pose proof (loaded_shipments (disk w) (clock h (ticks w))) as Hs.
  destruct (misshapen (disk w)); rewrite Hs; [reflexivity|].
  cbn [ret].
  destruct (property (stored (disk w)) shipmentId) as [p| |];
    [|reflexivity|reflexivity].
  destruct (decide (status p = purchased)); [reflexivity|].
  destruct (find _ (rates p)) as [r|]; [|reflexivity].
  unfold bind at 1, external.
  destruct (shipment_buy h shipmentId rateId) as [bought|e]; [|reflexivity].
  cbv zeta. unfold bind.
  erewrite (saveState_after _ _ _ _ w);
    [|unfold with_entry; rewrite Hs; reflexivity|apply after_load_write_error].
  destruct (write_error w); reflexivity.
Qed.

Lemma voidLabel_run h shipmentId w :
  voidLabel h shipmentId w =
  let w0 := logged (ShipmentRefund shipmentId) w in
  let w1 := after_load w0 in
  let failed e :=
    Ok {| success := false; message := "Void failed: " +:+ error_text e |} in
  match shipment_refund h shipmentId with
  | Throw e => (failed e, w0)
  | Ok refund =>
      let done :=
        Ok {| success := true;
              message :=
                "Refund requested. Status: "
                +:+ default "submitted"
                      (or_else (refund_status refund) (Some "submitted")) |} in
      if misshapen (disk w) then
        (failed (TypeError ("Cannot read properties of undefined (reading '"
                            +:+ shipmentId +:+ "')")),
         w1)
      else
        match property (stored (disk w)) shipmentId with
        | Undefined => (done, w1)
        | found =>
            match write_error w with
            | Some e => (failed e, tick w1)
            | None =>
                (done,
                 write h
                   match found with
                   | Own p => <[shipmentId := mark_voided p]> (stored (disk w))
                   | _ => stored (disk w)
                   end w1)
            end
        end
  end.
Proof.
  unfold voidLabel, try_catch, bind at 1, external.
  destruct (shipment_refund h shipmentId) as [refund|e]; [|reflexivity].
  unfold bind at 1. rewrite loadState_run.
  set (w0 := {| disk := disk w; calls := calls w ++ [ShipmentRefund shipmentId];
                ticks := ticks w; write_error := write_error w |}).
  change (logged (ShipmentRefund shipmentId) w) with w0.
  cbv zeta.
  unfold bind at 1, read_entry.
  pose proof (loaded_shipments (disk w0) (clock h (ticks w0))) as Hs.
  change (disk w0) with (disk w) in Hs |- *.
  destruct (misshapen (disk w)); rewrite Hs; [reflexivity|].
  cbn [ret].
  destruct (property (stored (disk w)) shipmentId) as [p| |]; [| |reflexivity];
    unfold bind;
    (erewrite (saveState_after _ _ _ _ w);
     [|first [unfold with_entry; rewrite Hs; reflexivity | exact Hs]
      |exact (after_load_write_error w0)]);
    destruct (write_error w); reflexivity.
Qed.

Lemma fetchShopifyOrderAddress_disk h order w :
  disk (snd (fetchShopifyOrderAddress h order w)) = disk w.
Proof.
  unfold fetchShopifyOrderAddress, try_catch, bind, external.
  destruct (shopify_cli_present h); [|reflexivity]. cbn [negb].
  destruct (get_order h order) as [[[addr|]]|e]; cbn;
    repeat match goal with |- context [if ?b then _ else _] => destruct b end;
    reflexivity.
Qed.

Lemma fetchShopifyOrderAddress_write_error h order w :
  write_error (snd (fetchShopifyOrderAddress h order w)) = write_error w.
Proof.
  unfold fetchShopifyOrderAddress, try_catch, bind, external.
  destruct (shopify_cli_present h); [|reflexivity]. cbn [negb].
  destruct (get_order h order) as [[[addr|]]|e]; cbn;
    repeat match goal with |- context [if ?b then _ else _] => destruct b end;
    reflexivity.
Qed.

Lemma destination_disk h options w :
  disk (snd (destination h options w)) = disk w.
Proof.
  unfold destination. destruct (truthy (orderId options)).
  - apply fetchShopifyOrderAddress_disk.
  - destruct (toAddress options); reflexivity.
Qed.

Lemma destination_write_error h options w :
  write_error (snd (destination h options w)) = write_error w.
Proof.
  unfold destination. destruct (truthy (orderId options)).
  - apply fetchShopifyOrderAddress_write_error.
  - destruct (toAddress options); reflexivity.
Qed.

Lemma fetchShopifyOrderAddress_calls h order w :
  calls (snd (fetchShopifyOrderAddress h order w)) = calls w
  \/ calls (snd (fetchShopifyOrderAddress h order w)) = calls w ++ [GetOrder order].
Proof.
  unfold fetchShopifyOrderAddress, try_catch, bind, external.
  destruct (shopify_cli_present h); [|left; reflexivity]. cbn [negb]. right.
  destruct (get_order h order) as [[[addr|]]|e]; cbn;
    repeat match goal with |- context [if ?b then _ else _] => destruct b end;
    reflexivity.
Qed.

Lemma destination_calls h options w :
  calls (snd (destination h options w)) = calls w
  \/ exists order,
       orderId options = Some order
       /\ calls (snd (destination h options w)) = calls w ++ [GetOrder order].
Proof.
  unfold destination. destruct (orderId options) as [order|] eqn:Ho.
  - destruct (truthy (Some order)).
    + cbn [default].
      destruct (fetchShopifyOrderAddress_calls h order w) as [H|H]; eauto.
    + left. destruct (toAddress options); reflexivity.
  - cbn [truthy]. left. destruct (toAddress options); reflexivity.
Qed.

Lemma destination_calls_prefix h options w :
  exists l, calls (snd (destination h options w)) = calls w ++ l.
Proof.
  destruct (destination_calls h options w) as [E|(order & _ & E)]; rewrite E.
  - exists []. now rewrite app_nil_r.
  - eexists. reflexivity.
Qed.

Lemma createShipment_run parseFloat h options w :
  createShipment parseFloat h options w =
  match destination h options w with
  | (Throw e, w1) => (Throw e, w1)
  | (Ok address, w1) =>
      let params := shipmentParams h address options in
      let w2 := logged (ShipmentCreate params) w1 in
      match shipment_create h params with
      | Throw e => (Throw e, w2)
      | Ok shipment =>
          match extract_rates parseFloat h options shipment with
          | [] => (Throw (Error NO_RATES), w2)
          | r :: rs =>
              let p :=
                new_shipment options address shipment (clock h (ticks w2)) (r :: rs) in
              let w3 := after_load (tick w2) in
              if misshapen (disk w1) then
                (Throw (TypeError ("Cannot set properties of undefined (setting '"
                                   +:+ api_id shipment +:+ "')")),
                 w3)
              else
                match write_error w1 with
                | Some e => (Throw e, tick w3)
                | None =>
                    (Ok p, write h (<[api_id shipment := p]> (stored (disk w1))) w3)
                end
          end
      end
  end.
Proof.
  unfold createShipment, bind at 1.
  destruct (destination h options w) as [[address|e] w1]; [|reflexivity].
  unfold bind at 1, external.
  destruct (shipment_create h (shipmentParams h address options))
    as [shipment|e]; [|reflexivity].
  cbv zeta.
  destruct (extract_rates parseFloat h options shipment) as [|r rs]; [reflexivity|].
  cbn [List.length Nat.eqb]. unfold bind at 1, now. unfold bind at 1.
  rewrite loadState_run. unfold bind at 1, assign_entry.
  destruct w1 as [d1 c1 n1 e1]. cbn [disk ticks calls write_error].
  pose proof (loaded_shipments d1 (clock h (S n1))) as Hs.
  destruct (misshapen d1); rewrite Hs; [reflexivity|].
  cbn [ret]. unfold bind.
  erewrite saveState_run; [|reflexivity].
  rewrite after_load_write_error. cbn [write_error].
  destruct e1; reflexivity.
Qed.

(** ** createShipment *)

(** When the destination is resolved, the carrier answers with rates that
    survive the filter, the file holds a shipment mapping (or is unusable)
    and can be written, the call returns the new record. *)
Lemma createShipment_returns parseFloat h options w address w1 shipment :
  destination h options w = (Ok address, w1) ->
  shipment_create h (shipmentParams h address options) = Ok shipment ->
  extract_rates parseFloat h options shipment <> [] ->
  misshapen (disk w) = false ->
  write_error w = None ->
  exists w',
    createShipment parseFloat h options w
    = (Ok (new_shipment options address shipment (clock h (ticks w1))
             (extract_rates parseFloat h options shipment)), w').
Proof.
  intros Hd Hc Hne Hm He. rewrite createShipment_run.
  pose proof (destination_disk h options w) as Hdisk.
  pose proof (destination_write_error h options w) as Herr.
  rewrite Hd in Hdisk, Herr |- *. cbn [snd] in Hdisk, Herr.
  cbv zeta. rewrite Hc, Hdisk, Herr, Hm, He.
  destruct (extract_rates parseFloat h options shipment); [contradiction|].
  eexists. reflexivity.
Qed.

Lemma createShipment_inv parseFloat h options w p w' :
  createShipment parseFloat h options w = (Ok p, w') ->
  exists address w1 shipment,
    destination h options w = (Ok address, w1)
    /\ shipment_create h (shipmentParams h address options) = Ok shipment
    /\ extract_rates parseFloat h options shipment <> []
    /\ p = new_shipment options address shipment (clock h (ticks w1))
             (extract_rates parseFloat h options shipment)
    /\ stored (disk w') = <[api_id shipment := p]> (stored (disk w))
    /\ calls w' = calls w1 ++ [ShipmentCreate (shipmentParams h address options)].
Proof.
  rewrite createShipment_run. intros E.
  pose proof (destination_disk h options w) as Hd.
  destruct (destination h options w) as [[address|e] w1]; [|discriminate].
  cbn [snd] in Hd. cbv zeta in E.
  destruct (shipment_create h (shipmentParams h address options))
    as [shipment|e] eqn:Ec; [|discriminate].
  destruct (extract_rates parseFloat h options shipment) as [|r rs] eqn:Er;
    [discriminate|].
  destruct (misshapen (disk w1)); [discriminate|].
  destruct (write_error w1); [discriminate|].
  injection E as <- <-. exists address, w1, shipment.
  split; [reflexivity|]. split; [exact Ec|]. rewrite Er.
  split; [discriminate|]. split; [reflexivity|]. split.
  - rewrite stored_write, Hd. reflexivity.
  - cbn [calls write]. now rewrite after_load_calls.
Qed.

(** A successful call found a shipment mapping in the file, or no usable
    file, and could write the file. *)
Lemma createShipment_wrote parseFloat h options w p w' :
  createShipment parseFloat h options w = (Ok p, w') ->
  misshapen (disk w) = false /\ write_error w = None
  /\ misshapen (disk w') = false /\ write_error w' = None.
Proof.
  rewrite createShipment_run. intros E.
  pose proof (destination_disk h options w) as Hd.
  pose proof (destination_write_error h options w) as He.
  destruct (destination h options w) as [[address|e] w1]; [|discriminate].
  cbn [snd] in Hd, He. cbv zeta in E.
  destruct (shipment_create h (shipmentParams h address options))
    as [shipment|e]; [|discriminate].
  destruct (extract_rates parseFloat h options shipment) as [|r rs];
    [discriminate|].
  rewrite Hd in E. destruct (misshapen (disk w)); [discriminate|].
  destruct (write_error w1) eqn:Ew; [discriminate|].
  injection E as <- <-. split; [reflexivity|]. split; [now rewrite <- He|].
  split; [reflexivity|]. cbn [write_error write].
  now rewrite after_load_write_error.
Qed.

(** A call that throws leaves the backing file as it was. *)
Lemma createShipment_fail_clean parseFloat h options w e w' :
  createShipment parseFloat h options w = (Throw e, w') -> disk w' = disk w.
Proof.
  rewrite createShipment_run. intros E.
  pose proof (destination_disk h options w) as Hd.
  destruct (destination h options w) as [[address|e0] w1]; cbn [snd] in Hd.
  - cbv zeta in E.
    destruct (shipment_create h (shipmentParams h address options)) as [shipment|e1].
    + destruct (extract_rates parseFloat h options shipment).
      * injection E as _ <-. exact Hd.
      * destruct (misshapen (disk w1)).
        -- injection E as _ <-. now rewrite after_load_disk.
        -- destruct (write_error w1); [|discriminate].
           injection E as _ <-. cbn [disk tick]. now rewrite after_load_disk.
    + injection E as _ <-. exact Hd.
  - injection E as _ <-. exact Hd.
Qed.

(** C2. A successful [createShipment] returns a record whose status is
    [pending] and whose rates are not empty; when every price is a decimal
    string (it parses to a number), the rates are in ascending order of the
    parsed prices. *)
Theorem createShipment_pending_sorted parseFloat h options w p w' :
  createShipment parseFloat h options w = (Ok p, w') ->
  status p = pending
  /\ rates p <> []
  /\ (Forall (priced parseFloat) (rates p) ->
      StronglySorted (price_le parseFloat) (rates p)).
Proof.
  intros E.
  apply createShipment_inv in E
    as (address & w1 & shipment & _ & _ & Hne & -> & _).
  cbn [status rates new_shipment].
  split; [reflexivity|]. split; [assumption|].
  unfold extract_rates. intros Hp. apply sort_Forall in Hp.
  exact (sort_sorted (fun r => parseFloat (rate r)) _ Hp).
Qed.

Lemma createShipment_sample :
  createShipment Sample.parseFloat Sample.host (Sample.options (Some "ups"))
    Sample.first_run
  = (Ok Sample.created, Sample.quoted).
Proof. vm_compute. reflexivity. Qed.

Lemma createShipment_pending_sorted_witness :
  status Sample.created = pending
  /\ rates Sample.created <> []
  /\ StronglySorted (price_le Sample.parseFloat) (rates Sample.created).
Proof.
  destruct (createShipment_pending_sorted _ _ _ _ _ _ createShipment_sample)
    as (Hs & Hne & Hsorted).
  split; [exact Hs|]. split; [exact Hne|].
  apply Hsorted. repeat constructor.
Defined.

Lemma carrier_matches_same h options wanted r :
  carrier_filter options = Some wanted -> wanted <> "" ->
  carrier_matches h options r = same_carrier h wanted r.
Proof.
  intros Hc Hw. unfold carrier_matches, same_carrier. rewrite Hc. cbn [truthy].
  destruct (String.eqb_spec wanted ""); [contradiction|]. cbn.
  destruct (carrier r); reflexivity.
Qed.

Lemma map_nil_inv {A B} (f : A -> B) l : map f l = [] -> l = [].
Proof. destruct l; [reflexivity|discriminate]. Qed.

Lemma sort_nil_inv {A} (f : A -> A -> float) l : sort f l = [] -> l = [].
Proof.
  intros H. apply (f_equal (@List.length A)) in H. rewrite sort_length in H.
  destruct l; [reflexivity|discriminate].
Qed.

(** C3. With a carrier filter (a non-empty string), and once the address is
    resolved and the rate shopper has answered, the rates are those of the
    answer whose carrier equals the filter up to case (both put in lower
    case by the runtime), copied and sorted after the filtering. When none
    is kept (the answer is empty or nothing matches) the call throws the
    no-rates error and the backing file is untouched. Otherwise, when the
    file holds a shipment mapping (or is unusable) and can be written, the
    call returns a record with the kept rates; and when the call throws
    instead, the file is untouched and the file held no shipment mapping
    or the write threw. *)
Theorem createShipment_carrier_filter
    parseFloat h options w wanted address w1 shipment :
  carrier_filter options = Some wanted ->
  wanted <> "" ->
  destination h options w = (Ok address, w1) ->
  shipment_create h (shipmentParams h address options) = Ok shipment ->
  let kept :=
    List.filter (same_carrier h wanted) (default [] (api_rates shipment)) in
  extract_rates parseFloat h options shipment
  = sort (by_price parseFloat) (map copy_rate kept)
  /\ (kept = [] ->
      exists w',
        createShipment parseFloat h options w = (Throw (Error NO_RATES), w')
        /\ disk w' = disk w)
  /\ (kept <> [] ->
      (misshapen (disk w) = false -> write_error w = None ->
       exists p w',
         createShipment parseFloat h options w = (Ok p, w')
         /\ rates p = sort (by_price parseFloat) (map copy_rate kept))
      /\ (forall e w',
            createShipment parseFloat h options w = (Throw e, w') ->
            disk w' = disk w
            /\ (misshapen (disk w) = true \/ write_error w = Some e))).
Proof.
  intros Hc Hw Hd Hs kept.
  assert (Hx : extract_rates parseFloat h options shipment
               = sort (by_price parseFloat) (map copy_rate kept)).
  { unfold extract_rates, kept. do 2 f_equal.
    apply List.filter_ext. intros r. now apply carrier_matches_same. }
  split; [exact Hx|].
  pose proof (createShipment_run parseFloat h options w) as Hrun.
  pose proof (destination_disk h options w) as Hdisk.
  pose proof (destination_write_error h options w) as Herr.
  rewrite Hd in Hrun, Hdisk, Herr. cbn [snd] in Hdisk, Herr.
  cbv zeta in Hrun. rewrite Hs, Hx, Hdisk, Herr in Hrun.
  split.
  - intros Hk. rewrite Hk in Hrun. cbn in Hrun. eexists. split; [exact Hrun|].
    exact Hdisk.
  - intros Hk.
    destruct (sort (by_price parseFloat) (map copy_rate kept)) as [|r rs] eqn:Es.
    { apply sort_nil_inv, map_nil_inv in Es. contradiction. }
    split.
    + intros Hm He. rewrite Hm, He in Hrun.
      eexists _, _. split; [exact Hrun|reflexivity].
    + intros e w' E. split; [exact (createShipment_fail_clean _ _ _ _ _ _ E)|].
      rewrite E in Hrun.
      destruct (misshapen (disk w)); [now left|].
      destruct (write_error w) as [e'|]; [|discriminate].
      right. congruence.
Qed.

Lemma createShipment_carrier_filter_witness :
  (exists p w',
     createShipment Sample.parseFloat Sample.host (Sample.options (Some "ups"))
       Sample.first_run = (Ok p, w')
     /\ rates p = [Sample.rate_std; Sample.rate_exp])
  /\ (exists w',
        createShipment Sample.parseFloat Sample.host (Sample.options (Some "FedEx"))
          Sample.first_run = (Throw (Error NO_RATES), w')
        /\ disk w' = Absent).
Proof.
  split.
  - destruct (createShipment_carrier_filter Sample.parseFloat Sample.host
                (Sample.options (Some "ups")) Sample.first_run "ups"
                Sample.london Sample.first_run
                {| api_id := "shp_1";
                   api_rates := Some [Sample.rate_exp; Sample.rate_dhl; Sample.rate_std] |}
                eq_refl ltac:(discriminate) eq_refl eq_refl)
      as (_ & _ & Hkept).
    destruct Hkept as (Hreturns & _); [discriminate|].
    destruct (Hreturns eq_refl eq_refl) as (p & w' & E & Hr).
    exists p, w'. split; [exact E|]. rewrite Hr. vm_compute. reflexivity.
  - destruct (createShipment_carrier_filter Sample.parseFloat Sample.host
                (Sample.options (Some "FedEx")) Sample.first_run "FedEx"
                Sample.london Sample.first_run
                {| api_id := "shp_1";
                   api_rates := Some [Sample.rate_exp; Sample.rate_dhl; Sample.rate_std] |}
                eq_refl ltac:(discriminate) eq_refl eq_refl)
      as (_ & Hnone & _).
    destruct Hnone as (w' & E & Hdisk); [reflexivity|].
    exists w'. split; [exact E|exact Hdisk].
Defined.

(** ** buyLabel *)

Lemma find_rate_none rateId (l : list Rate) :
  rateId ∉ map id l -> find (fun r => String.eqb (id r) rateId) l = None.
Proof.
  induction l as [|r l IH]; [reflexivity|]. cbn [map find]. intros Hnot.
  apply not_elem_of_cons in Hnot as [Hne Hl].
  destruct (String.eqb_spec (id r) rateId) as [Heq|_]; [congruence|auto].
Qed.

Lemma buyLabel_purchased h shipmentId rateId w p :
  stored (disk w) !! shipmentId = Some p ->
  status p = purchased ->
  buyLabel h shipmentId rateId w =
  (Throw (Error ("Shipment " +:+ shipmentId +:+ " already purchased. Tracking: "
                 +:+ interpolate (trackingCode p))), w).
Proof.
  intros Hp Hs.
  rewrite buyLabel_run, (stored_shapely _ _ _ Hp), (property_own _ _ _ Hp),
    (after_load_present _ _ _ Hp).
  destruct (decide (status p = purchased)); [reflexivity|contradiction].
Qed.

Lemma buyLabel_records h shipmentId rateId w label w' :
  buyLabel h shipmentId rateId w = (Ok label, w') ->
  exists p,
    stored (disk w') !! shipmentId = Some p
    /\ status p = purchased
    /\ trackingCode p = Some (label_trackingCode label).
Proof.
  rewrite buyLabel_run. intros E.
  destruct (misshapen (disk w)); [discriminate|].
  destruct (property (stored (disk w)) shipmentId) as [p| |];
    [|discriminate|discriminate].
  destruct (decide (status p = purchased)); [discriminate|].
  destruct (find _ (rates p)) as [r|]; [|discriminate].
  cbv zeta in E.
  destruct (shipment_buy h shipmentId rateId) as [b|e]; [|discriminate].
  destruct (write_error w); [discriminate|].
  injection E as <- <-.
  eexists. rewrite stored_write, lookup_insert_eq. repeat split.
Qed.

(** C4. [buyLabel] on a stored shipment whose status is [purchased] throws
    the already-purchased error, whose message ends with the tracking code
    of the record as the template prints it, and changes nothing; hence
    after a call that succeeded, a second call with the same identifiers
    throws that error with the tracking code the first call returned and
    recorded. *)
Theorem buyLabel_not_idempotent h h' shipmentId rateId w :
  (forall p,
     stored (disk w) !! shipmentId = Some p ->
     status p = purchased ->
     buyLabel h shipmentId rateId w =
     (Throw (Error ("Shipment " +:+ shipmentId
                    +:+ " already purchased. Tracking: "
                    +:+ interpolate (trackingCode p))), w))
  /\ (forall label w1,
        buyLabel h shipmentId rateId w = (Ok label, w1) ->
        buyLabel h' shipmentId rateId w1 =
        (Throw (Error ("Shipment " +:+ shipmentId
                       +:+ " already purchased. Tracking: "
                       +:+ label_trackingCode label)), w1)).
Proof.
  split.
  - intros p. apply buyLabel_purchased.
  - intros label w1 E.
    apply buyLabel_records in E as (p & Hp & Hs & Ht).
    rewrite (buyLabel_purchased _ _ _ _ _ Hp Hs), Ht. reflexivity.
Qed.

Lemma buyLabel_not_idempotent_witness :
  buyLabel Sample.host "shp_1" "rate_exp" Sample.bought =
  (Throw (Error "Shipment shp_1 already purchased. Tracking: 1Z999AA10123456784"),
   Sample.bought)
  /\ buyLabel Sample.host "shp_1" "rate_std" Sample.bought =
     (Throw (Error "Shipment shp_1 already purchased. Tracking: 1Z999AA10123456784"),
      Sample.bought).
Proof.
  split.
  - destruct (buyLabel_not_idempotent Sample.host Sample.host "shp_1" "rate_exp"
                Sample.bought) as [Hfirst _].
    refine (Hfirst (mark_purchased Sample.created
                      {| label_trackingCode := "1Z999AA10123456784";
                         label_labelUrl := Some "https://labels.example/shp_1.png";
                         label_carrier := Some "UPS";
                         label_service := "Standard";
                         label_rate := "9.99";
                         label_currency := "GBP" |}) _ _).
    + vm_compute. reflexivity.
    + reflexivity.
  - destruct (buyLabel_not_idempotent Sample.host Sample.host "shp_1" "rate_std"
                Sample.quoted) as [_ Hsecond].
    refine (Hsecond
              {| label_trackingCode := "1Z999AA10123456784";
                 label_labelUrl := Some "https://labels.example/shp_1.png";
                 label_carrier := Some "UPS";
                 label_service := "Standard";
                 label_rate := "9.99";
                 label_currency := "GBP" |} Sample.bought _).
    vm_compute. reflexivity.
Defined.

(** The rate check as the claim C5 words it: any stored shipment, a rate
    identifier that is not among its rates. *)
Lemma buyLabel_rate_check_counterexample :
  exists p,
    stored (disk Sample.bought) !! "shp_1" = Some p
    /\ ("rate_none" ∉ map id (rates p))
    /\ fst (buyLabel Sample.host "shp_1" "rate_none" Sample.bought)
       = Throw (Error "Shipment shp_1 already purchased. Tracking: 1Z999AA10123456784")
    /\ fst (buyLabel Sample.host "shp_1" "rate_none" Sample.bought)
       <> Throw (Error ("Rate rate_none not found for shipment shp_1. Available rates: "
                        +:+ String.concat ", " (map id (rates p)))).
Proof.
  eexists. split; [vm_compute; reflexivity|].
  split; [|split].
  - cbn. rewrite !not_elem_of_cons. repeat split; try discriminate.
    apply not_elem_of_nil.
  - vm_compute. reflexivity.
  - vm_compute. discriminate.
Qed.

(** C5 (amended). On a stored shipment that is not already purchased, a
    rate identifier that is not among the stored rates makes [buyLabel]
    throw the rate-not-found error, whose message lists the identifiers of
    the stored rates; whatever the status, the call throws and leaves the
    world as it was: the purchase endpoint is not called and the backing
    file is not written. *)
Theorem buyLabel_rate_not_found h shipmentId rateId w p :
  stored (disk w) !! shipmentId = Some p ->
  rateId ∉ map id (rates p) ->
  (status p <> purchased ->
   buyLabel h shipmentId rateId w =
   (Throw (Error ("Rate " +:+ rateId +:+ " not found for shipment "
                  +:+ shipmentId +:+ ". Available rates: "
                  +:+ String.concat ", " (map id (rates p)))), w))
  /\ exists e, buyLabel h shipmentId rateId w = (Throw e, w).
Proof.
  intros Hp Hr.
  rewrite buyLabel_run, (stored_shapely _ _ _ Hp), (property_own _ _ _ Hp),
    (after_load_present _ _ _ Hp).
  rewrite (find_rate_none _ _ Hr).
  destruct (decide (status p = purchased)).
  - split; [contradiction|]. eexists. reflexivity.
  - split; [reflexivity|]. eexists. reflexivity.
Qed.

Lemma buyLabel_rate_not_found_witness :
  buyLabel Sample.host "shp_1" "rate_none" Sample.quoted =
  (Throw (Error "Rate rate_none not found for shipment shp_1. Available rates: rate_std, rate_exp"),
   Sample.quoted).
Proof.
  destruct (buyLabel_rate_not_found Sample.host "shp_1" "rate_none" Sample.quoted
              Sample.created) as [Hmsg _].
  - vm_compute. reflexivity.
  - cbn. rewrite !not_elem_of_cons. repeat split; try discriminate.
    apply not_elem_of_nil.
  - apply Hmsg. discriminate.
Defined.

(** ** cancelShipment and voidLabel *)

(** The claim C6 as worded fails: on a state file that cannot be written
    [cancelShipment] throws on a [pending] record, on a state file without
    a shipment mapping it throws, and for the identifier [constructor],
    under which nothing is stored, it reports success and rewrites the
    file. *)
Lemma cancelShipment_result_counterexample :
  (stored (disk Sample.quoted) !! "shp_1" = Some Sample.created
   /\ status Sample.created = pending
   /\ fst (cancelShipment Sample.host "shp_1" (Outage.read_only Sample.quoted))
      = Throw Outage.EACCES)
  /\ fst (cancelShipment Sample.host "shp_1" Outage.bare)
     = Throw (TypeError "Cannot read properties of undefined (reading 'shp_1')")
  /\ (stored (disk Sample.quoted) !! "constructor" = None
      /\ fst (cancelShipment Outage.host_next "constructor" Sample.quoted)
         = Ok {| success := true;
                 message := "Shipment cancelled. No charges incurred." |}
      /\ disk (snd (cancelShipment Outage.host_next "constructor" Sample.quoted))
         <> disk Sample.quoted).
Proof.
  split; [|split].
  - split; [vm_compute; reflexivity|]. split; vm_compute; reflexivity.
  - vm_compute. reflexivity.
  - split; [vm_compute; reflexivity|]. split; [vm_compute; reflexivity|].
    vm_compute. discriminate.
Qed.

(** C6 (amended). For an identifier that is not a name every object
    inherits: on a state file without a shipment mapping [cancelShipment]
    throws a [TypeError]; otherwise, without a record, or with a record
    whose status is [purchased], it returns a result with [success = false]
    and the backing file is untouched (the record stays [purchased]); with a
    record of another status it deletes the record and returns a result
    with [success = true], after which [getRates] on the identifier throws
    the not-found error, unless the state file cannot be written: then it
    throws the error of the write and the file is untouched. *)
Theorem cancelShipment_result h shipmentId w :
  inherited shipmentId = false ->
  if misshapen (disk w) then
    exists msg w',
      cancelShipment h shipmentId w = (Throw (TypeError msg), w')
      /\ disk w' = disk w
  else
    match stored (disk w) !! shipmentId with
    | None =>
        exists r w',
          cancelShipment h shipmentId w = (Ok r, w')
          /\ success r = false /\ disk w' = disk w
    | Some p =>
        match status p with
        | purchased =>
            exists r w',
              cancelShipment h shipmentId w = (Ok r, w')
              /\ success r = false /\ disk w' = disk w
              /\ status_of w' shipmentId = Some purchased
        | pending | voided =>
            match write_error w with
            | Some e =>
                exists w',
                  cancelShipment h shipmentId w = (Throw e, w')
                  /\ disk w' = disk w
            | None =>
                exists r w',
                  cancelShipment h shipmentId w = (Ok r, w')
                  /\ success r = true
                  /\ stored (disk w') = delete shipmentId (stored (disk w))
                  /\ forall h' : Host,
                       fst (getRates h' shipmentId w')
                       = Throw (Error ("Shipment " +:+ shipmentId +:+ " not found"))
            end
        end
    end.
Proof.
  intros Hplain. rewrite cancelShipment_run.
  destruct (misshapen (disk w)).
  { eexists _, _. split; [reflexivity|apply after_load_disk]. }
  cbv zeta. rewrite (property_plain _ _ Hplain).
  destruct (stored (disk w) !! shipmentId) as [p|] eqn:Hp.
  - cbn [property_status].
    destruct (decide (Some (status p) = Some purchased)) as [Hs|Hs].
    + injection Hs as Hs. rewrite Hs.
      eexists _, _. split; [reflexivity|]. rewrite after_load_disk.
      repeat split. unfold status_of. rewrite after_load_disk, Hp. cbn.
      now rewrite Hs.
    + assert (Hgone : forall h' : Host,
                 fst (getRates h' shipmentId
                        (write h (delete shipmentId (stored (disk w))) (after_load w)))
                 = Throw (Error ("Shipment " +:+ shipmentId +:+ " not found"))).
      { intros h'.
        rewrite getRates_run, misshapen_write, stored_write,
          (property_plain _ _ Hplain), lookup_delete_eq.
        reflexivity. }
      destruct (status p); [|contradiction|];
        (destruct (write_error w);
         [eexists; split; [reflexivity|]; cbn [disk tick]; apply after_load_disk
         |eexists _, _; repeat split; auto]).
  - eexists _, _. split; [reflexivity|]. split; [reflexivity|].
    apply after_load_disk.
Qed.

Lemma cancelShipment_result_witness :
  (exists r w',
     cancelShipment Sample.host "shp_1" Sample.quoted = (Ok r, w')
     /\ success r = true
     /\ stored (disk w') = delete "shp_1" (stored (disk Sample.quoted))
     /\ forall h' : Host,
          fst (getRates h' "shp_1" w') = Throw (Error "Shipment shp_1 not found"))
  /\ (exists r w',
        cancelShipment Sample.host "shp_1" Sample.bought = (Ok r, w')
        /\ success r = false /\ disk w' = disk Sample.bought
        /\ status_of w' "shp_1" = Some purchased)
  /\ (exists w',
        cancelShipment Sample.host "shp_1" (Outage.read_only Sample.quoted)
        = (Throw Outage.EACCES, w')
        /\ disk w' = disk Sample.quoted).
Proof.
  split; [|split].
  - exact (cancelShipment_result Sample.host "shp_1" Sample.quoted eq_refl).
  - exact (cancelShipment_result Sample.host "shp_1" Sample.bought eq_refl).
  - exact (cancelShipment_result Sample.host "shp_1"
             (Outage.read_only Sample.quoted) eq_refl).
Defined.

(** The claim C7 as worded fails: after a refund that succeeded, on a
    state file that cannot be written [voidLabel] answers [success = false]
    for a stored record, and so it does on a state file without a shipment
    mapping; for the identifier [constructor], under which nothing is
    stored, it rewrites the file. *)
Lemma voidLabel_result_counterexample :
  (exists refund, shipment_refund Sample.host "shp_1" = Ok refund)
  /\ (exists p, stored (disk Sample.bought) !! "shp_1" = Some p)
  /\ fst (voidLabel Sample.host "shp_1" (Outage.read_only Sample.bought))
     = Ok {| success := false;
             message := "Void failed: EACCES: permission denied, open '/tmp/easypost-pending-shipments.json'" |}
  /\ fst (voidLabel Sample.host "shp_1" Outage.bare)
     = Ok {| success := false;
             message := "Void failed: Cannot read properties of undefined (reading 'shp_1')" |}
  /\ stored (disk Sample.quoted) !! "constructor" = None
  /\ disk (snd (voidLabel Outage.host_next "constructor" Sample.quoted))
     <> disk Sample.quoted.
Proof.
  split; [eexists; reflexivity|].
  split; [eexists; vm_compute; reflexivity|].
  split; [vm_compute; reflexivity|].
  split; [vm_compute; reflexivity|].
  split; [vm_compute; reflexivity|].
  vm_compute. discriminate.
Qed.

(** C7 (amended). [voidLabel] returns a result whatever the refund call
    answers, it never throws. When the refund call throws, the result has
    [success = false] and a message, and the backing file is untouched.
    When the refund call succeeds: on a state file without a shipment
    mapping the result has [success = false] and the file is untouched; a
    record stored under the identifier gets the status [voided] and the
    result has [success = true], unless the state file cannot be written:
    then the result has [success = false] with the error of the write and
    the file is untouched; without such a record, and for an identifier
    that is not a name every object inherits, the result has
    [success = true] and the backing file is untouched. *)
Theorem voidLabel_result h shipmentId w :
  exists r w',
    voidLabel h shipmentId w = (Ok r, w')
    /\ match shipment_refund h shipmentId with
       | Throw e =>
           success r = false
           /\ message r = "Void failed: " +:+ error_text e
           /\ disk w' = disk w
       | Ok refund =>
           if misshapen (disk w) then success r = false /\ disk w' = disk w
           else
             match stored (disk w) !! shipmentId with
             | Some p =>
                 match write_error w with
                 | None =>
                     success r = true
                     /\ stored (disk w')
                        = <[shipmentId := mark_voided p]> (stored (disk w))
                     /\ status_of w' shipmentId = Some voided
                 | Some e =>
                     success r = false
                     /\ message r = "Void failed: " +:+ error_text e
                     /\ disk w' = disk w
                 end
             | None =>
                 inherited shipmentId = false ->
                 success r = true /\ disk w' = disk w
             end
       end.
Proof.
  rewrite voidLabel_run. cbv zeta.
  destruct (shipment_refund h shipmentId) as [refund|e].
  - destruct (misshapen (disk w)).
    { eexists _, _. split; [reflexivity|]. split; [reflexivity|].
      now rewrite after_load_disk. }
    destruct (stored (disk w) !! shipmentId) as [p|] eqn:Hp.
    + rewrite (property_own _ _ _ Hp).
      destruct (write_error w) as [e|].
      * eexists _, _. split; [reflexivity|]. repeat split.
        cbn [disk tick]. now rewrite after_load_disk.
      * eexists _, _. split; [reflexivity|]. split; [reflexivity|].
        split; [reflexivity|]. unfold status_of.
        now rewrite stored_write, lookup_insert_eq.
    + destruct (inherited shipmentId) eqn:Hi.
      * unfold property. rewrite Hp, Hi.
        destruct (write_error w); eexists _, _;
          (split; [reflexivity|discriminate]).
      * rewrite (property_plain _ _ Hi), Hp.
        eexists _, _. split; [reflexivity|]. intros _.
        split; [reflexivity|]. now rewrite after_load_disk.
  - eexists _, _. repeat split.
Qed.

Lemma voidLabel_result_witness :
  (exists r w',
     voidLabel Sample.host "shp_1" Sample.bought = (Ok r, w')
     /\ success r = true /\ status_of w' "shp_1" = Some voided)
  /\ (exists r w',
        voidLabel Sample.host "shp_9" Sample.bought = (Ok r, w')
        /\ success r = true /\ disk w' = disk Sample.bought)
  /\ (exists r w',
        voidLabel Outage.host "shp_1" Sample.bought = (Ok r, w')
        /\ success r = false
        /\ message r = "Void failed: Refund window closed"
        /\ disk w' = disk Sample.bought).
Proof.
  split; [|split].
  - destruct (voidLabel_result Sample.host "shp_1" Sample.bought)
      as (r & w' & E & Hs & _ & Hv).
    exists r, w'. split; [exact E|]. split; [exact Hs|exact Hv].
  - destruct (voidLabel_result Sample.host "shp_9" Sample.bought)
      as (r & w' & E & H).
    exists r, w'. split; [exact E|]. exact (H eq_refl).
  - destruct (voidLabel_result Outage.host "shp_1" Sample.bought)
      as (r & w' & E & H).
    exists r, w'. split; [exact E|exact H].
Defined.

(** ** Units *)

Lemma positive_truthy cm : (0 <? cm) = true -> truthy_num cm = true.
Proof.
  unfold truthy_num, is_zero, is_nan.
  rewrite ltb_spec, !FloatAxioms.eqb_spec.
  change (Prim2SF 0) with (S754_zero false).
  change (Prim2SF PrimFloat.zero) with (S754_zero false).
  unfold SFltb, SFeqb.
  destruct (Prim2SF cm) as [s|[]| |[] m e]; cbn; try discriminate; intros _;
    rewrite ?Z.compare_refl, ?Pos.compare_cont_refl; reflexivity.
Qed.

Lemma spread_inches_sent cm : sent_in_inches cm (spread_inches cm).
Proof.
  destruct cm as [cm|]; cbn; [|reflexivity].
  intros Hpos. now rewrite (positive_truthy _ Hpos).
Qed.

(** C8. Once the destination is known, [createShipment] makes one call to
    the rate shopper, whose parcel carries the weight times 35.274 and each
    specified (positive) dimension times 0.3937, an unspecified dimension
    staying absent; the record a successful call returns and persists keeps
    the parcel of the caller as it was given. *)
Theorem createShipment_units parseFloat h options w :
  (forall address w1,
     destination h options w = (Ok address, w1) ->
     exists params,
       calls (snd (createShipment parseFloat h options w))
       = calls w1 ++ [ShipmentCreate params]
       /\ api_weight (api_parcel params) = weight (parcel options) * 35.274
       /\ sent_in_inches (length (parcel options)) (api_length (api_parcel params))
       /\ sent_in_inches (width (parcel options)) (api_width (api_parcel params))
       /\ sent_in_inches (height (parcel options)) (api_height (api_parcel params)))
  /\ (forall p w',
        createShipment parseFloat h options w = (Ok p, w') ->
        shipment_parcel p = parcel options
        /\ stored (disk w') !! shipment_id p = Some p
        /\ shipment_parcel <$> stored (disk w') !! shipment_id p
           = Some (parcel options)).
Proof.
  split.
  - intros address w1 Hd. exists (shipmentParams h address options).
    split; [|repeat split; apply spread_inches_sent].
    rewrite createShipment_run, Hd. cbv zeta.
    destruct (shipment_create h (shipmentParams h address options)) as [shipment|e];
      [|reflexivity].
    destruct (extract_rates parseFloat h options shipment); [reflexivity|].
    destruct (misshapen (disk w1)); [cbn [snd]; now rewrite after_load_calls|].
    destruct (write_error w1); cbn [snd calls write tick];
      now rewrite after_load_calls.
  - intros p w' E.
    apply createShipment_inv in E
      as (address & w1 & shipment & _ & _ & _ & Hp & Hst & _).
    assert (Hid : shipment_id p = api_id shipment) by (subst p; reflexivity).
    assert (Hparcel : shipment_parcel p = parcel options) by (subst p; reflexivity).
    rewrite Hst, Hid, lookup_insert_eq. cbn. rewrite Hparcel. auto.
Qed.

Lemma createShipment_units_witness :
  exists params,
    calls Sample.quoted = [ShipmentCreate params]
    /\ api_weight (api_parcel params) = 15 * 35.274
    /\ api_length (api_parcel params) = Some (100 * 0.3937)
    /\ api_width (api_parcel params) = None
    /\ shipment_parcel <$> stored (disk Sample.quoted) !! "shp_1"
       = Some Sample.box.
Proof.
  destruct (createShipment_units Sample.parseFloat Sample.host
              (Sample.options (Some "ups")) Sample.first_run) as [Hsent Hkept].
  destruct (Hsent Sample.london Sample.first_run eq_refl)
    as (params & Hcalls & Hweight & Hlength & Hwidth & _).
  destruct (Hkept Sample.created Sample.quoted) as (_ & _ & Hparcel).
  { vm_compute. reflexivity. }
  exists params. split; [exact Hcalls|]. split; [exact Hweight|].
  split; [apply Hlength; reflexivity|]. split; [exact Hwidth|exact Hparcel].
Defined.

(** ** Destination of a shipment *)

Lemma fetchShopifyOrderAddress_message h order w e w' :
  fetchShopifyOrderAddress h order w = (Throw e, w') ->
  e <> Error MISSING_DESTINATION.
Proof.
  unfold fetchShopifyOrderAddress, try_catch, bind, external, throw, ret.
  destruct (shopify_cli_present h); cbn [negb].
  - destruct (get_order h order) as [[[addr|]]|e0]; cbn;
      repeat match goal with
             | |- context [if ?b then _ else _] => destruct b
             end;
      intros E; inversion E; discriminate.
  - intros E; inversion E; discriminate.
Qed.

Lemma to_address_resolved h address options :
  to_address (shipmentParams h address options) = address.
Proof. destruct address; reflexivity. Qed.

Lemma createShipment_calls_resolved parseFloat h options w address w1 :
  destination h options w = (Ok address, w1) ->
  calls (snd (createShipment parseFloat h options w))
  = calls w1 ++ [ShipmentCreate (shipmentParams h address options)].
Proof.
  intros Hd. rewrite createShipment_run, Hd. cbv zeta.
  destruct (shipment_create h (shipmentParams h address options)) as [shipment|e];
    [|reflexivity].
  destruct (extract_rates parseFloat h options shipment); [reflexivity|].
  destruct (misshapen (disk w1)); [cbn [snd]; now rewrite after_load_calls|].
  destruct (write_error w1); cbn [snd calls write tick];
    now rewrite after_load_calls.
Qed.

(** C10. With an [orderId] (a non-empty string) the destination is the
    address of the order, whatever [toAddress] is supplied: [createShipment]
    does what it does for the same options with any other [toAddress] or
    none; when the order cannot be resolved it throws the error of the
    resolution, with a supplied address too; when the order is resolved, the
    rate request it sends carries the address of the order, the record it
    returns has the address of the order and the [orderId], and it does
    return one when the carrier answers with rates that survive the filter
    and the state file is usable. Its own missing-destination error is
    thrown when the options have neither an [orderId] nor a [toAddress];
    and a call that throws this error without having made an external call
    had neither. *)
Theorem createShipment_orderId_precedence
    parseFloat h order parcel0 carrier0 w :
  order <> "" ->
  let by_order given :=
    {| orderId := Some order; toAddress := given;
       parcel := parcel0; carrier_filter := carrier0 |} in
  (forall given other,
     createShipment parseFloat h (by_order given) w
     = createShipment parseFloat h (by_order other) w)
  /\ (forall given e w1,
        fetchShopifyOrderAddress h order w = (Throw e, w1) ->
        createShipment parseFloat h (by_order given) w = (Throw e, w1))
  /\ (forall given address w1,
        fetchShopifyOrderAddress h order w = (Ok address, w1) ->
        let params := shipmentParams h address (by_order given) in
        to_address params = address
        /\ calls (snd (createShipment parseFloat h (by_order given) w))
           = calls w1 ++ [ShipmentCreate params]
        /\ (forall p w',
              createShipment parseFloat h (by_order given) w = (Ok p, w') ->
              shipment_toAddress p = address
              /\ shipment_orderId p = Some order)
        /\ (forall shipment,
              shipment_create h params = Ok shipment ->
              extract_rates parseFloat h (by_order given) shipment <> [] ->
              misshapen (disk w) = false ->
              write_error w = None ->
              exists p w',
                createShipment parseFloat h (by_order given) w = (Ok p, w')
                /\ shipment_toAddress p = address))
  /\ (forall options,
        truthy (orderId options) = false -> toAddress options = None ->
        createShipment parseFloat h options w
        = (Throw (Error MISSING_DESTINATION), w))
  /\ (forall options w',
        createShipment parseFloat h options w
        = (Throw (Error MISSING_DESTINATION), w') ->
        calls w' = calls w ->
        truthy (orderId options) = false /\ toAddress options = None).
Proof.
  intros Hne by_order.
  assert (Ht : truthy (Some order) = true).
  { cbn. destruct (String.eqb_spec order ""); [contradiction|reflexivity]. }
  assert (Hdest : forall given,
             destination h (by_order given) w
             = fetchShopifyOrderAddress h order w).
  { intros given. unfold destination, by_order. cbn [orderId]. now rewrite Ht. }
  split; [|split; [|split; [|split]]].
  - intros given other. rewrite !createShipment_run, !Hdest. reflexivity.
  - intros given e w1 E. now rewrite createShipment_run, Hdest, E.
  - intros given address w1 E params.
    assert (Hd : destination h (by_order given) w = (Ok address, w1))
      by now rewrite Hdest.
    split; [apply to_address_resolved|].
    split; [now apply createShipment_calls_resolved|]. split.
    + intros p w' Hp.
      apply createShipment_inv in Hp
        as (address' & w1' & shipment & Hd' & _ & _ & -> & _).
      rewrite Hd in Hd'. injection Hd' as <- <-. split; reflexivity.
    + intros shipment Hc Hr Hm He.
      destruct (createShipment_returns parseFloat h (by_order given) w
                  address w1 shipment Hd Hc Hr Hm He) as (w' & Hp).
      eexists _, w'. split; [exact Hp|reflexivity].
  - intros options Ho Ha. rewrite createShipment_run. unfold destination.
    rewrite Ho, Ha. reflexivity.
  - intros options w' E Hcalls.
    pose proof (destination_calls_prefix h options w) as (l & Hl).
    destruct (destination h options w) as [[address|e] w1] eqn:Hd.
    + pose proof (createShipment_calls_resolved parseFloat h options w
                    address w1 Hd) as Hc.
      rewrite E in Hc. cbn [snd] in Hc, Hl. rewrite Hcalls, Hl in Hc.
      apply (f_equal (@List.length ExtCall)) in Hc.
      rewrite !length_app in Hc. cbn in Hc. lia.
    + rewrite createShipment_run, Hd in E. injection E as -> _.
      unfold destination in Hd.
      destruct (truthy (orderId options)).
      * apply fetchShopifyOrderAddress_message in Hd. congruence.
      * destruct (toAddress options); [discriminate|]. auto.
Qed.

Lemma createShipment_orderId_precedence_witness :
  createShipment Sample.parseFloat Sample.host
    {| orderId := Some "gid://shopify/Order/12345";
       toAddress := Some Sample.london;
       parcel := Sample.box; carrier_filter := None |} Sample.first_run
  = createShipment Sample.parseFloat Sample.host
      {| orderId := Some "gid://shopify/Order/12345";
         toAddress := None;
         parcel := Sample.box; carrier_filter := None |} Sample.first_run
  /\ (exists p w',
        createShipment Sample.parseFloat Sample.host
          {| orderId := Some "gid://shopify/Order/12345";
             toAddress := Some Sample.london;
             parcel := Sample.box; carrier_filter := None |} Sample.first_run
        = (Ok p, w')
        /\ shipment_toAddress p = address_of_order Sample.order_address)
  /\ createShipment Sample.parseFloat Outage.host
       {| orderId := Some "gid://shopify/Order/12345";
          toAddress := Some Sample.london;
          parcel := Sample.box; carrier_filter := None |} Sample.first_run
     = (Throw (Error "Shopify order not found: gid://shopify/Order/12345"),
        logged (GetOrder "gid://shopify/Order/12345") Sample.first_run)
  /\ createShipment Sample.parseFloat Sample.host
       {| orderId := None; toAddress := None;
          parcel := Sample.box; carrier_filter := None |} Sample.first_run
     = (Throw (Error MISSING_DESTINATION), Sample.first_run).
Proof.
  destruct (createShipment_orderId_precedence Sample.parseFloat Sample.host
              "gid://shopify/Order/12345" Sample.box None Sample.first_run)
    as (Hsame & _ & Hresolved & Hmissing & _); [discriminate|].
  destruct (createShipment_orderId_precedence Sample.parseFloat Outage.host
              "gid://shopify/Order/12345" Sample.box None Sample.first_run)
    as (_ & Hfails & _); [discriminate|].
  split; [apply Hsame|]. split; [|split].
  - destruct (Hresolved (Some Sample.london)
                (address_of_order Sample.order_address)
                (logged (GetOrder "gid://shopify/Order/12345") Sample.first_run)
                eq_refl) as (_ & _ & _ & Hreturns).
    refine (Hreturns
              {| api_id := "shp_1";
                 api_rates := Some [Sample.rate_exp; Sample.rate_dhl; Sample.rate_std] |}
              eq_refl _ eq_refl eq_refl).
    vm_compute. discriminate.
  - apply Hfails. reflexivity.
  - apply Hmissing; reflexivity.
Defined.

(** ** Status transitions *)

Lemma status_of_same_disk w w' shipmentId :
  disk w' = disk w -> status_of w' shipmentId = status_of w shipmentId.
Proof. unfold status_of. now intros ->. Qed.

Lemma status_of_after_load w shipmentId :
  status_of (after_load w) shipmentId = status_of w shipmentId.
Proof. apply status_of_same_disk, after_load_disk. Qed.

Lemma status_of_write h m w shipmentId :
  status_of (write h m w) shipmentId = status <$> m !! shipmentId.
Proof. reflexivity. Qed.

(** The operation left the backing file as it was. *)
Ltac untouched Hs :=
  left; rewrite <- Hs; apply status_of_same_disk;
  cbn [snd disk logged tick]; rewrite ?after_load_disk;
  cbn [disk logged tick]; first [reflexivity | assumption].

(** The claim C1 lists three transitions; [cancelShipment] also deletes a
    [voided] record, which is none of them. *)
Lemma cancel_voided_counterexample :
  status_of Sample.refunded "shp_1" = Some voided
  /\ status_of (step Sample.parseFloat Sample.host (Cancel "shp_1") Sample.refunded)
       "shp_1" = None
  /\ ~ listed_transition (Cancel "shp_1") voided None.
Proof.
  split; [vm_compute; reflexivity|]. split; [vm_compute; reflexivity|].
  intros H. inversion H.
Qed.

(** C1 (amended). One operation leaves the status of a stored record as it
    was, or changes it along one of: not purchased ([pending] or [voided])
    to [purchased], by [buyLabel], when the purchase call succeeds; not
    purchased to absent, by [cancelShipment]; any status to [voided], by
    [voidLabel], when the refund call succeeds; any status to [pending], by
    [createShipment], for the identifier the carrier gave the shipment it
    quoted for the resolved destination. *)
Theorem status_transitions parseFloat h op w shipmentId s :
  status_of w shipmentId = Some s ->
  status_of (step parseFloat h op w) shipmentId = Some s
  \/ performed_transition h w op shipmentId s
       (status_of (step parseFloat h op w) shipmentId).
Proof.
  intros Hs.
  assert (Hstored : status <$> stored (disk w) !! shipmentId = Some s) by exact Hs.
  destruct op as [options|sid rid|sid|sid|sid]; cbn [step].
  - rewrite createShipment_run.
    pose proof (destination_disk h options w) as Hd.
    destruct (destination h options w) as [[address|e] w1] eqn:Hdest;
      cbn [snd] in *; [|untouched Hs]. cbv zeta.
    destruct (shipment_create h (shipmentParams h address options))
      as [shipment|e] eqn:Hc; [|untouched Hs].
    destruct (extract_rates parseFloat h options shipment) as [|r rs];
      [untouched Hs|].
    destruct (misshapen (disk w1)); [untouched Hs|].
    destruct (write_error w1); [untouched Hs|].
    cbn [snd]. rewrite status_of_write, Hd.
    destruct (decide (api_id shipment = shipmentId)) as [<-|Hne].
    + right. rewrite lookup_insert_eq. econstructor; [exact Hdest|exact Hc].
    + left. now rewrite lookup_insert_ne.
  - rewrite buyLabel_run.
    destruct (misshapen (disk w)); [untouched Hs|].
    destruct (property (stored (disk w)) sid) as [p| |] eqn:Hp;
      [|untouched Hs|untouched Hs].
    apply property_own_inv in Hp.
    destruct (decide (status p = purchased)) as [Hpur|Hpur]; [untouched Hs|].
    destruct (find _ (rates p)) as [r|]; [|untouched Hs].
    cbv zeta.
    destruct (shipment_buy h sid rid) as [b|e] eqn:Hb; [|untouched Hs].
    destruct (write_error w); [untouched Hs|].
    cbn [snd]. rewrite status_of_write.
    destruct (decide (sid = shipmentId)) as [<-|Hne].
    + right. rewrite lookup_insert_eq. cbn.
      rewrite Hp in Hstored. injection Hstored as <-.
      econstructor; [assumption|exact Hb].
    + left. now rewrite lookup_insert_ne.
  - rewrite cancelShipment_run.
    destruct (misshapen (disk w)); [untouched Hs|]. cbv zeta.
    destruct (property (stored (disk w)) sid) as [p| |] eqn:Hp;
      [| |untouched Hs].
    + apply property_own_inv in Hp. cbn [property_status].
      destruct (decide (Some (status p) = Some purchased)) as [Hpur|Hpur];
        [untouched Hs|].
      destruct (write_error w); [untouched Hs|].
      cbn [snd]. rewrite status_of_write.
      destruct (decide (sid = shipmentId)) as [<-|Hne].
      * right. rewrite lookup_delete_eq. cbn.
        rewrite Hp in Hstored. injection Hstored as <-.
        constructor. congruence.
      * left. now rewrite lookup_delete_ne.
    + assert (Hne : sid <> shipmentId).
      { intros ->. apply (or_introl (B := property (stored (disk w)) shipmentId
                                           = Undefined)) in Hp.
        apply property_not_own in Hp. rewrite Hp in Hstored. discriminate. }
      destruct (decide _); [untouched Hs|].
      destruct (write_error w); [untouched Hs|].
      cbn [snd]. rewrite status_of_write. left. now rewrite lookup_delete_ne.
  - rewrite getRates_run.
    destruct (misshapen (disk w)); [untouched Hs|].
    destruct (property (stored (disk w)) sid); untouched Hs.
  - rewrite voidLabel_run. cbv zeta.
    destruct (shipment_refund h sid) as [refund|e] eqn:Hr; [|untouched Hs].
    destruct (misshapen (disk w)); [untouched Hs|].
    destruct (property (stored (disk w)) sid) as [p| |] eqn:Hp;
      [| |untouched Hs]; (destruct (write_error w); [untouched Hs|]);
      cbn [snd]; rewrite status_of_write.
    + destruct (decide (sid = shipmentId)) as [<-|Hne].
      * right. rewrite lookup_insert_eq. econstructor. exact Hr.
      * left. now rewrite lookup_insert_ne.
    + left. exact Hstored.
Qed.

Lemma status_transitions_witness :
  performed_transition Sample.host Sample.refunded (Cancel "shp_1") "shp_1" voided
    (status_of (step Sample.parseFloat Sample.host (Cancel "shp_1") Sample.refunded)
       "shp_1")
  /\ performed_transition Sample.host Sample.quoted (Buy "shp_1" "rate_std")
       "shp_1" pending
       (status_of (step Sample.parseFloat Sample.host (Buy "shp_1" "rate_std")
                     Sample.quoted) "shp_1").
Proof.
  split.
  - destruct (status_transitions Sample.parseFloat Sample.host (Cancel "shp_1")
                Sample.refunded "shp_1" voided) as [Hsame|Hmoved].
    + vm_compute. reflexivity.
    + vm_compute in Hsame. discriminate Hsame.
    + exact Hmoved.
  - destruct (status_transitions Sample.parseFloat Sample.host
                (Buy "shp_1" "rate_std") Sample.quoted "shp_1" pending)
      as [Hsame|Hmoved].
    + vm_compute. reflexivity.
    + vm_compute in Hsame. discriminate Hsame.
    + exact Hmoved.
Defined.

(** ** The sample session, run *)

Example filter_ignores_case :
  same_carrier Sample.host "ups" Sample.rate_std = true
  /\ same_carrier Sample.host "Ups" Sample.rate_exp = true
  /\ same_carrier Sample.host "ups" Sample.rate_dhl = false.
Proof. repeat split. Qed.

(** The comparison is the runtime's: with a [toLowerCase] that knows the
    letter, a filter in small letters keeps a carrier in capitals outside
    ASCII too. *)
Example filter_ignores_case_beyond_ascii :
  same_carrier Outage.host_latin Outage.latin_small Outage.rate_latin = true
  /\ same_carrier Sample.host Outage.latin_small Outage.rate_latin = false.
Proof. split; reflexivity. Qed.

Example cheapest_rate_first :
  map rate (rates Sample.created) = ["9.99"; "15.50"].
Proof. reflexivity. Qed.

Example cancel_after_purchase :
  cancelShipment Sample.host "shp_1" Sample.bought
  = (Ok {| success := false;
           message := "Cannot cancel purchased shipment. Use void-label to request refund." |},
     Sample.bought).
Proof. vm_compute. reflexivity. Qed.

Example cancel_before_purchase :
  fst (cancelShipment Sample.host "shp_1" Sample.quoted)
  = Ok {| success := true; message := "Shipment cancelled. No charges incurred." |}
  /\ fst (getRates Sample.host "shp_1"
            (snd (cancelShipment Sample.host "shp_1" Sample.quoted)))
     = Throw (Error "Shipment shp_1 not found").
Proof. split; vm_compute; reflexivity. Qed.

Example void_after_purchase :
  fst (voidLabel Sample.host "shp_1" Sample.bought)
  = Ok {| success := true; message := "Refund requested. Status: submitted" |}
  /\ status_of Sample.refunded "shp_1" = Some voided.
Proof. split; vm_compute; reflexivity. Qed.

Example first_run_loads_empty :
  fst (loadState Sample.host Sample.first_run)
  = Ok (empty_state "2026-01-01T00:00:00.000Z").
Proof. reflexivity. Qed.

(** Names every object inherits are found where nothing is stored:
    [getRates] returns [undefined] and [buyLabel] throws a [TypeError]. *)
Example inherited_names_are_found :
  fst (getRates Sample.host "constructor" Sample.quoted) = Ok NotListed
  /\ fst (buyLabel Sample.host "toString" "rate_std" Sample.quoted)
     = Throw (TypeError "Cannot read properties of undefined (reading 'find')")
  /\ fst (getRates Sample.host "shp_2" Sample.quoted)
     = Throw (Error "Shipment shp_2 not found").
Proof. repeat split. Qed.

(** With a directory at the state path the quote is lost: the carrier has
    been asked, the save throws, and nothing is stored. *)
Example createShipment_on_directory :
  createShipment Sample.parseFloat Sample.host (Sample.options None)
    Outage.directory
  = (Throw Outage.EISDIR,
     tick (tick (tick (logged
       (ShipmentCreate
          (shipmentParams Sample.host Sample.london (Sample.options None)))
       Outage.directory)))).
Proof. reflexivity. Qed.

(** * Further properties of the client *)

(** ** Sorting keeps the elements *)

Lemma sort_insert_perm {A} (f : A -> A -> float) a l :
  sort_insert f a l ≡ₚ a :: l.
Proof.
  induction l as [|b l IH]; cbn [sort_insert]; [reflexivity|].
  destruct (0 <? f a b); [|reflexivity].
  rewrite IH. apply Permutation_swap.
Qed.

Lemma sort_perm {A} (f : A -> A -> float) l : sort f l ≡ₚ l.
Proof.
  induction l as [|a l IH]; [reflexivity|].
  unfold sort in *. cbn [foldr]. now rewrite sort_insert_perm, IH.
Qed.

Lemma copy_rate_id r : copy_rate r = r.
Proof. destruct r; reflexivity. Qed.

Lemma map_copy_rate l : map copy_rate l = l.
Proof. induction l as [|r l IH]; cbn; [reflexivity|]. now rewrite copy_rate_id, IH. Qed.

(** ** createShipment: failures, calls, and what is stored *)

(** X1. An operation that throws has not written the backing file: this
    holds for [createShipment] (address not resolved, rate shopper failing,
    no rates, state file unusable), for [buyLabel] (unknown shipment,
    already purchased, unknown rate, purchase refused, state file unusable)
    and for [getRates]. *)
Theorem throwing_keeps_file parseFloat h w :
  (forall options e w',
     createShipment parseFloat h options w = (Throw e, w') -> disk w' = disk w)
  /\ (forall shipmentId rateId e w',
        buyLabel h shipmentId rateId w = (Throw e, w') -> disk w' = disk w)
  /\ (forall shipmentId e w',
        getRates h shipmentId w = (Throw e, w') -> disk w' = disk w).
Proof.
  split; [|split].
  - intros options e w'. apply createShipment_fail_clean.
  - intros sid rid e w'. rewrite buyLabel_run.
    destruct (misshapen (disk w)).
    { intros E. injection E as _ <-. apply after_load_disk. }
    destruct (property (stored (disk w)) sid) as [p| |].
    + destruct (decide (status p = purchased)).
      * intros E. injection E as _ <-. apply after_load_disk.
      * destruct (find _ (rates p)) as [r|].
        -- cbv zeta. destruct (shipment_buy h sid rid).
           ++ destruct (write_error w); [|discriminate].
              intros E. injection E as _ <-. cbn [disk tick logged].
              apply after_load_disk.
           ++ intros E. injection E as _ <-. apply after_load_disk.
        -- intros E. injection E as _ <-. apply after_load_disk.
    + intros E. injection E as _ <-. apply after_load_disk.
    + intros E. injection E as _ <-. apply after_load_disk.
  - intros sid e w'. rewrite getRates_run.
    destruct (misshapen (disk w)).
    { intros E. injection E as _ <-. apply after_load_disk. }
    destruct (property (stored (disk w)) sid); [discriminate|discriminate|].
    intros E. injection E as _ <-. apply after_load_disk.
Qed.

Lemma throwing_keeps_file_witness :
  disk (snd (createShipment Sample.parseFloat Outage.host (Sample.options None)
               Sample.quoted)) = disk Sample.quoted
  /\ disk (snd (buyLabel Outage.host "shp_1" "rate_std" Sample.quoted))
     = disk Sample.quoted
  /\ disk (snd (getRates Sample.host "shp_2" Sample.quoted)) = disk Sample.quoted.
Proof.
  destruct (throwing_keeps_file Sample.parseFloat Outage.host Sample.quoted)
    as (Hcreate & Hbuy & _).
  destruct (throwing_keeps_file Sample.parseFloat Sample.host Sample.quoted)
    as (_ & _ & Hrates).
  split; [|split].
  - refine (Hcreate (Sample.options None) (Error "Address verification failed") _ _).
    vm_compute. reflexivity.
  - refine (Hbuy "shp_1" "rate_std" (Error "Insufficient funds") _ _).
    vm_compute. reflexivity.
  - refine (Hrates "shp_2" (Error "Shipment shp_2 not found") _ _).
    vm_compute. reflexivity.
Defined.

(** X2. The calls [createShipment] makes: the order manager is asked at
    most once, and only for the [orderId] of the options; the rate shopper
    is asked exactly once when the destination is resolved, after the order
    manager, and not at all when the resolution throws, in which case the
    error of the resolution is the error of the call. *)
Theorem createShipment_calls parseFloat h options w :
  match destination h options w with
  | (Throw e, w1) =>
      createShipment parseFloat h options w = (Throw e, w1)
      /\ (calls w1 = calls w
          \/ exists order,
               orderId options = Some order /\ calls w1 = calls w ++ [GetOrder order])
  | (Ok address, w1) =>
      calls (snd (createShipment parseFloat h options w))
      = calls w1 ++ [ShipmentCreate (shipmentParams h address options)]
      /\ (calls w1 = calls w
          \/ exists order,
               orderId options = Some order /\ calls w1 = calls w ++ [GetOrder order])
  end.
Proof.
  assert (Hcalls : calls (snd (destination h options w)) = calls w
                   \/ exists order,
                        orderId options = Some order
                        /\ calls (snd (destination h options w))
                           = calls w ++ [GetOrder order]).
  { unfold destination. destruct (orderId options) as [order|] eqn:Ho.
    - destruct (truthy (Some order)).
      + cbn [default].
        destruct (fetchShopifyOrderAddress_calls h order w) as [H|H]; eauto.
      + left. destruct (toAddress options); reflexivity.
    - cbn [truthy]. left. destruct (toAddress options); reflexivity. }
  rewrite createShipment_run.
  destruct (destination h options w) as [[address|e] w1]; cbn [snd] in Hcalls.
  - split; [|exact Hcalls]. cbv zeta.
    destruct (shipment_create h (shipmentParams h address options)) as [shipment|e];
      [|reflexivity].
    destruct (extract_rates parseFloat h options shipment); [reflexivity|].
    destruct (misshapen (disk w1)); [cbn [snd]; now rewrite after_load_calls|].
    destruct (write_error w1); cbn [snd calls write tick];
      now rewrite after_load_calls.
  - split; [reflexivity|exact Hcalls].
Qed.

(** X3. After a successful [createShipment], [getRates] on the identifier
    of the returned record returns the rates of that record, and every
    record stored under another identifier is as it was. *)
Theorem createShipment_then_getRates parseFloat h options w p w' :
  createShipment parseFloat h options w = (Ok p, w') ->
  (forall h' : Host,
     getRates h' (shipment_id p) w' = (Ok (Listed (rates p)), w'))
  /\ (forall shipmentId,
        shipmentId <> shipment_id p ->
        stored (disk w') !! shipmentId = stored (disk w) !! shipmentId).
Proof.
  intros E.
  apply createShipment_inv in E
    as (address & w1 & shipment & _ & _ & _ & Hp & Hst & _).
  assert (Hid : shipment_id p = api_id shipment) by (subst p; reflexivity).
  assert (Hlook : stored (disk w') !! shipment_id p = Some p)
    by (rewrite Hst, Hid; apply lookup_insert_eq).
  split.
  - intros h'.
    rewrite getRates_run, (stored_shapely _ _ _ Hlook),
      (property_own _ _ _ Hlook).
    now rewrite (after_load_present _ _ _ Hlook).
  - intros sid Hne. rewrite Hst, Hid in *. now rewrite lookup_insert_ne.
Qed.

Lemma createShipment_then_getRates_witness :
  getRates Outage.host "shp_1" Sample.quoted
  = (Ok (Listed [Sample.rate_std; Sample.rate_exp]), Sample.quoted).
Proof.
  destruct (createShipment_then_getRates Sample.parseFloat Sample.host
              (Sample.options (Some "ups")) Sample.first_run
              Sample.created Sample.quoted) as [Hrates _].
  - vm_compute. reflexivity.
  - exact (Hrates Outage.host).
Defined.

(** X4. The rates of the record a successful [createShipment] returns are
    the rates of the shopper's answer that pass the carrier test, each one
    once: sorting and copying lose nothing and add nothing. *)
Theorem createShipment_rates_kept parseFloat h options w p w' :
  createShipment parseFloat h options w = (Ok p, w') ->
  exists address shipment,
    shipment_create h (shipmentParams h address options) = Ok shipment
    /\ rates p ≡ₚ List.filter (carrier_matches h options)
                    (default [] (api_rates shipment)).
Proof.
  intros E.
  apply createShipment_inv in E
    as (address & w1 & shipment & _ & Hc & _ & Hp & _ & _).
  exists address, shipment. split; [exact Hc|].
  subst p. cbn [rates new_shipment]. unfold extract_rates.
  now rewrite sort_perm, map_copy_rate.
Qed.

Lemma createShipment_rates_kept_witness :
  exists address shipment,
    shipment_create Sample.host
      (shipmentParams Sample.host address (Sample.options (Some "ups")))
    = Ok shipment
    /\ rates Sample.created
       ≡ₚ List.filter (carrier_matches Sample.host (Sample.options (Some "ups")))
            (default [] (api_rates shipment)).
Proof.
  apply (createShipment_rates_kept Sample.parseFloat Sample.host
           (Sample.options (Some "ups")) Sample.first_run
           Sample.created Sample.quoted).
  vm_compute. reflexivity.
Defined.

Lemma filter_all {A} (f : A -> bool) l :
  (forall x, f x = true) -> List.filter f l = l.
Proof.
  intros Hf. induction l as [|a l IH]; cbn; [reflexivity|].
  now rewrite Hf, IH.
Qed.

(** X5. A carrier filter that is absent or the empty string filters
    nothing: the call throws the no-rates error when the shopper's answer
    has no rates; otherwise, when the state file holds a shipment mapping
    (or is unusable) and can be written, it returns all of them, and a call
    that throws instead does not throw for want of rates: the file held no
    shipment mapping or the write threw. *)
Theorem createShipment_without_filter
    parseFloat h options w address w1 shipment :
  truthy (carrier_filter options) = false ->
  destination h options w = (Ok address, w1) ->
  shipment_create h (shipmentParams h address options) = Ok shipment ->
  match default [] (api_rates shipment) with
  | [] =>
      createShipment parseFloat h options w
      = (Throw (Error NO_RATES),
         logged (ShipmentCreate (shipmentParams h address options)) w1)
  | all =>
      (misshapen (disk w) = false -> write_error w = None ->
       exists p w',
         createShipment parseFloat h options w = (Ok p, w') /\ rates p ≡ₚ all)
      /\ (forall e w',
            createShipment parseFloat h options w = (Throw e, w') ->
            misshapen (disk w) = true \/ write_error w = Some e)
  end.
Proof.
  intros Hf Hd Hc.
  assert (Hx : extract_rates parseFloat h options shipment
               = sort (by_price parseFloat) (default [] (api_rates shipment))).
  { unfold extract_rates. rewrite map_copy_rate, filter_all; [reflexivity|].
    intros r. unfold carrier_matches. now rewrite Hf. }
  pose proof (createShipment_run parseFloat h options w) as Hrun.
  pose proof (destination_disk h options w) as Hdisk.
  pose proof (destination_write_error h options w) as Herr.
  rewrite Hd in Hrun, Hdisk, Herr. cbn [snd] in Hdisk, Herr.
  cbv zeta in Hrun. rewrite Hc, Hx, Hdisk, Herr in Hrun.
  destruct (default [] (api_rates shipment)) as [|r rs] eqn:Hall.
  - exact Hrun.
  - destruct (sort (by_price parseFloat) (r :: rs)) as [|r' rs'] eqn:Es.
    { apply sort_nil_inv in Es. discriminate. }
    split.
    + intros Hm He. rewrite Hm, He in Hrun.
      eexists _, _. split; [exact Hrun|].
      cbn [rates new_shipment]. rewrite <- Es. apply sort_perm.
    + intros e w' E. rewrite E in Hrun.
      destruct (misshapen (disk w)); [now left|].
      destruct (write_error w) as [e'|]; [|discriminate].
      right. congruence.
Qed.

Lemma createShipment_without_filter_witness :
  exists p w',
    createShipment Sample.parseFloat Sample.host (Sample.options (Some ""))
      Sample.first_run = (Ok p, w')
    /\ rates p ≡ₚ [Sample.rate_exp; Sample.rate_dhl; Sample.rate_std].
Proof.
  destruct (createShipment_without_filter Sample.parseFloat Sample.host
              (Sample.options (Some "")) Sample.first_run Sample.london
              Sample.first_run
              {| api_id := "shp_1";
                 api_rates := Some [Sample.rate_exp; Sample.rate_dhl; Sample.rate_std] |}
              eq_refl eq_refl eq_refl) as [Hreturns _].
  exact (Hreturns eq_refl eq_refl).
Defined.

(** ** Address resolution *)

(** X6. With an [orderId] and no order-manager CLI on the machine,
    [createShipment] throws the CLI-not-found error and does nothing else:
    no external service is called and the world is as it was, also when a
    [toAddress] was supplied (there is no fallback to it). *)
Theorem createShipment_without_cli parseFloat h options order w :
  orderId options = Some order ->
  order <> "" ->
  shopify_cli_present h = false ->
  createShipment parseFloat h options w
  = (Throw (Error ("Shopify CLI not found at " +:+ SHOPIFY_CLI)), w).
Proof.
  intros Ho Hne Hcli. rewrite createShipment_run. unfold destination.
  rewrite Ho. cbn [truthy default].
  destruct (String.eqb_spec order ""); [contradiction|]. cbn [negb].
  unfold fetchShopifyOrderAddress. rewrite Hcli. reflexivity.
Qed.

Lemma createShipment_without_cli_witness :
  createShipment Sample.parseFloat Outage.host_no_cli
    {| orderId := Some "1001"; toAddress := Some Sample.london;
       parcel := Sample.box; carrier_filter := None |} Sample.first_run
  = (Throw (Error ("Shopify CLI not found at " +:+ SHOPIFY_CLI)), Sample.first_run).
Proof.
  apply (createShipment_without_cli Sample.parseFloat Outage.host_no_cli _ "1001");
    [reflexivity|discriminate|reflexivity].
Defined.

(** X7. Every error [fetchShopifyOrderAddress] throws is one of its own
    three: its message starts with "Shopify CLI not found at ", with
    "Shopify order not found: " or with "Failed to fetch Shopify order: ";
    an error of the order manager never passes through as it is. The world
    changes by the one logged call at most, never in the backing file. *)
Theorem fetchShopifyOrderAddress_errors h order w e w' :
  fetchShopifyOrderAddress h order w = (Throw e, w') ->
  (starts_with "Shopify CLI not found at " (exn_message e)
   \/ starts_with "Shopify order not found: " (exn_message e)
   \/ starts_with "Failed to fetch Shopify order: " (exn_message e))
  /\ disk w' = disk w.
Proof.
  intros E. split.
  - revert E.
    unfold fetchShopifyOrderAddress, try_catch, bind, external, throw, ret.
    destruct (shopify_cli_present h); cbn [negb].
    + destruct (get_order h order) as [[[addr|]]|e0]; cbn;
        repeat match goal with
               | |- context [if ?b then _ else _] => destruct b
               end;
        intros E; inversion E; subst; cbn [exn_message];
        first [ right; left; eexists; reflexivity
              | right; right; eexists; reflexivity ].
    + intros E. inversion E. left. eexists. reflexivity.
  - pose proof (fetchShopifyOrderAddress_disk h order w) as Hd.
    now rewrite E in Hd.
Qed.

Lemma fetchShopifyOrderAddress_errors_witness :
  starts_with "Shopify order not found: " "Shopify order not found: 1001"
  /\ disk (logged (GetOrder "1001") Sample.first_run) = Absent.
Proof.
  destruct (fetchShopifyOrderAddress_errors Outage.host "1001" Sample.first_run
              (Error "Shopify order not found: 1001")
              (logged (GetOrder "1001") Sample.first_run) eq_refl)
    as [[Hcli|[Hnot|Hfail]] Hdisk].
  - destruct Hcli as [rest Hrest]. cbn in Hrest. discriminate Hrest.
  - split; [exact Hnot|exact Hdisk].
  - destruct Hfail as [rest Hrest]. cbn in Hrest. discriminate Hrest.
Defined.

(** X8. An order without a shipping address: the error the function throws
    for it inside its own [try] is caught by its own [catch] and wrapped,
    as a fetch failure, or as an order-not-found error when the text
    "not found" occurs in the message (it can only come from the order
    identifier). The order manager has been called once. *)
Theorem fetchShopifyOrderAddress_no_address h order w :
  shopify_cli_present h = true ->
  get_order h order = Ok {| shippingAddress := None |} ->
  let inner := "Order " +:+ order +:+ " has no shipping address" in
  fetchShopifyOrderAddress h order w
  = (Throw (Error (if includes inner "not found"
                   then "Shopify order not found: " +:+ order
                   else "Failed to fetch Shopify order: " +:+ inner)),
     logged (GetOrder order) w).
Proof.
  intros Hcli Hget inner.
  unfold fetchShopifyOrderAddress, try_catch, bind, external.
  rewrite Hcli, Hget. cbn [negb shippingAddress throw exn_message]. fold inner.
  destruct (includes inner "not found"); [reflexivity|].
  unfold error_text. cbn [exn_message]. reflexivity.
Qed.

Lemma fetchShopifyOrderAddress_no_address_witness :
  fetchShopifyOrderAddress Outage.host_no_address "1001" Sample.first_run
  = (Throw (Error "Failed to fetch Shopify order: Order 1001 has no shipping address"),
     logged (GetOrder "1001") Sample.first_run)
  /\ fetchShopifyOrderAddress Outage.host_no_address "not found" Sample.first_run
     = (Throw (Error "Shopify order not found: not found"),
        logged (GetOrder "not found") Sample.first_run).
Proof.
  split.
  - exact (fetchShopifyOrderAddress_no_address Outage.host_no_address "1001"
             Sample.first_run eq_refl eq_refl).
  - exact (fetchShopifyOrderAddress_no_address Outage.host_no_address "not found"
             Sample.first_run eq_refl eq_refl).
Defined.

Lemma truthy_not_blank s : truthy s = true -> not_blank s.
Proof.
  destruct s as [s|]; [|discriminate]. cbn.
  destruct (String.eqb_spec s ""); [discriminate|]. intros _ [=]. contradiction.
Qed.

Lemma or_else_undefined s : not_blank (or_else s None).
Proof.
  unfold or_else. destruct (truthy s) eqn:Hs; [now apply truthy_not_blank|].
  discriminate.
Qed.

(** X9. The address built from an order is normalised: the country is
    never empty (it falls back on "GB"), the state is always defined (it
    falls back on the empty string), company, second street line and phone
    are undefined rather than empty, and there is never an email. The name
    is the first and last names that are present, joined by one space, and
    the name of the address when neither is. *)
Theorem address_of_order_normalised addr :
  country (address_of_order addr) <> ""
  /\ is_Some (state (address_of_order addr))
  /\ not_blank (company (address_of_order addr))
  /\ not_blank (street2 (address_of_order addr))
  /\ not_blank (phone (address_of_order addr))
  /\ email (address_of_order addr) = None
  /\ name (address_of_order addr)
     = match truthy (firstName addr), truthy (lastName addr) with
       | true, true =>
           Some (default "" (firstName addr) +:+ " " +:+ default "" (lastName addr))
       | true, false => firstName addr
       | false, true => lastName addr
       | false, false => sa_name addr
       end.
Proof.
  unfold address_of_order. cbn [country state company street2 phone email name].
  repeat split; try apply or_else_undefined.
  - unfold or_else.
    destruct (truthy (countryCodeV2 addr)) eqn:H2.
    + destruct (countryCodeV2 addr) as [c|]; [|discriminate]. cbn in *.
      destruct (String.eqb_spec c ""); [discriminate|assumption].
    + destruct (truthy (countryCode addr)) eqn:H1.
      * destruct (countryCode addr) as [c|]; [|discriminate]. cbn in *.
        destruct (String.eqb_spec c ""); [discriminate|assumption].
      * cbn. discriminate.
  - unfold or_else.
    destruct (truthy (provinceCode addr)) eqn:Hc.
    + destruct (provinceCode addr); [eauto|discriminate].
    + destruct (truthy (province addr)) eqn:Hp; [|cbn; eauto].
      destruct (province addr); [eauto|discriminate].
  - destruct (firstName addr) as [[|a f]|], (lastName addr) as [[|b l]|];
      reflexivity.
Qed.

(** ** buyLabel: the label, the calls, what a record keeps *)

Lemma find_rate_some rateId (l : list Rate) r :
  find (fun r => String.eqb (id r) rateId) l = Some r ->
  r ∈ l /\ id r = rateId.
Proof.
  induction l as [|r0 l IH]; cbn [find]; [discriminate|].
  destruct (String.eqb_spec (id r0) rateId) as [Heq|Hne].
  - intros [= <-]. split; [left|exact Heq].
  - intros H. destruct (IH H) as [Hin Hid]. split; [now right|exact Hid].
Qed.

Lemma find_rate_in rateId (l : list Rate) :
  rateId ∈ map id l ->
  exists r, find (fun r => String.eqb (id r) rateId) l = Some r.
Proof.
  induction l as [|r0 l IH]; cbn [map find].
  - intros H. now apply elem_of_nil in H.
  - intros H. destruct (String.eqb_spec (id r0) rateId) as [Heq|Hne]; [eauto|].
    apply elem_of_cons in H as [H|H]; [congruence|auto].
Qed.

(** X10. The label a successful [buyLabel] returns takes carrier, service,
    price and currency from a rate of the stored shipment whose identifier
    is the [rateId] of the call, and the tracking code from the purchase;
    the stored record then has the status [purchased], that tracking code
    and that label URL, and keeps everything else; every other record is as
    it was. *)
Theorem buyLabel_label h shipmentId rateId w label w' :
  buyLabel h shipmentId rateId w = (Ok label, w') ->
  exists p r bought,
    stored (disk w) !! shipmentId = Some p
    /\ r ∈ rates p /\ id r = rateId
    /\ shipment_buy h shipmentId rateId = Ok bought
    /\ label_trackingCode label = tracking_code bought
    /\ label_carrier label = carrier r
    /\ label_service label = service r
    /\ label_rate label = rate r
    /\ label_currency label = currency r
    /\ (exists p',
          stored (disk w') !! shipmentId = Some p'
          /\ status p' = purchased
          /\ trackingCode p' = Some (label_trackingCode label)
          /\ labelUrl p' = label_labelUrl label
          /\ same_quote p p')
    /\ (forall other,
          other <> shipmentId ->
          stored (disk w') !! other = stored (disk w) !! other).
Proof.
  rewrite buyLabel_run. intros E.
  destruct (misshapen (disk w)); [discriminate|].
  destruct (property (stored (disk w)) shipmentId) as [p| |] eqn:Hp;
    [|discriminate|discriminate].
  apply property_own_inv in Hp.
  destruct (decide (status p = purchased)); [discriminate|].
  destruct (find _ (rates p)) as [r|] eqn:Hr; [|discriminate].
  cbv zeta in E.
  destruct (shipment_buy h shipmentId rateId) as [bought|e]; [|discriminate].
  destruct (write_error w); [discriminate|].
  injection E as <- <-.
  apply find_rate_some in Hr as [Hin Hid].
  exists p, r, bought. repeat split; try assumption.
  - eexists. rewrite stored_write, lookup_insert_eq.
    split; [reflexivity|]. repeat split.
  - intros other Hne. rewrite stored_write. now rewrite lookup_insert_ne.
Qed.

Lemma buyLabel_label_witness :
  exists r,
    r ∈ [Sample.rate_std; Sample.rate_exp] /\ id r = "rate_exp"
    /\ carrier r = Some "UPS" /\ service r = "Express Saver"
    /\ rate r = "15.50" /\ currency r = "GBP".
Proof.
  destruct (buyLabel_label Sample.host "shp_1" "rate_exp" Sample.quoted
              {| label_trackingCode := "1Z999AA10123456784";
                 label_labelUrl := Some "https://labels.example/shp_1.png";
                 label_carrier := Some "UPS";
                 label_service := "Express Saver";
                 label_rate := "15.50";
                 label_currency := "GBP" |}
              (snd (buyLabel Sample.host "shp_1" "rate_exp" Sample.quoted)))
    as (p & r & bought & Hp & Hin & Hid & _ & _ & Hc & Hs & Hr & Hcur & _).
  - vm_compute. reflexivity.
  - assert (Hrates : rates p = [Sample.rate_std; Sample.rate_exp]).
    { vm_compute in Hp. injection Hp as <-. reflexivity. }
    exists r. rewrite <- Hrates. cbn in Hc, Hs, Hr, Hcur. auto 10.
Defined.

(** X11. [buyLabel] calls the purchase endpoint exactly when the shipment
    is stored, is not purchased, and has a rate with the given identifier;
    it then calls it once, with the identifiers of the call, and calls
    nothing else. *)
Theorem buyLabel_calls h shipmentId rateId w :
  calls (snd (buyLabel h shipmentId rateId w))
  = match stored (disk w) !! shipmentId with
    | Some p =>
        if decide (status p = purchased) then calls w
        else if existsb (fun r => String.eqb (id r) rateId) (rates p)
             then calls w ++ [ShipmentBuy shipmentId rateId]
             else calls w
    | None => calls w
    end.
Proof.
  rewrite buyLabel_run.
  destruct (misshapen (disk w)) eqn:Hm.
  { assert (Hnone : stored (disk w) !! shipmentId = None).
    { destruct (stored (disk w) !! shipmentId) eqn:Hp; [|reflexivity].
      apply stored_shapely in Hp. congruence. }
    rewrite Hnone. apply after_load_calls. }
  unfold property.
  destruct (stored (disk w) !! shipmentId) as [p|]; cbn [snd];
    [|destruct (inherited shipmentId); apply after_load_calls].
  destruct (decide (status p = purchased)); cbn [snd]; [apply after_load_calls|].
  assert (Hfind : existsb (fun r => String.eqb (id r) rateId) (rates p)
                  = match find (fun r => String.eqb (id r) rateId) (rates p) with
                    | Some _ => true
                    | None => false
                    end).
  { induction (rates p) as [|r l IH]; cbn; [reflexivity|].
    destruct (String.eqb (id r) rateId); [reflexivity|exact IH]. }
  rewrite Hfind.
  destruct (find _ (rates p)); cbn [snd]; [|apply after_load_calls].
  cbv zeta.
  destruct (shipment_buy h shipmentId rateId); [destruct (write_error w)|];
    cbn [snd calls write logged tick]; now rewrite after_load_calls.
Qed.

(** What an operation leaves in the store. *)
Lemma getRates_stored h shipmentId w :
  stored (disk (snd (getRates h shipmentId w))) = stored (disk w).
Proof.
  rewrite getRates_run. destruct (misshapen (disk w)); [apply stored_after_load|].
  destruct (property (stored (disk w)) shipmentId); apply stored_after_load.
Qed.

Lemma buyLabel_stored h shipmentId rateId w :
  stored (disk (snd (buyLabel h shipmentId rateId w))) = stored (disk w)
  \/ exists p label,
       stored (disk w) !! shipmentId = Some p
       /\ fst (buyLabel h shipmentId rateId w) = Ok label
       /\ stored (disk (snd (buyLabel h shipmentId rateId w)))
          = <[shipmentId := mark_purchased p label]> (stored (disk w)).
Proof.
  rewrite buyLabel_run.
  destruct (misshapen (disk w)); [left; apply stored_after_load|].
  destruct (property (stored (disk w)) shipmentId) as [p| |] eqn:Hp;
    [|left; apply stored_after_load|left; apply stored_after_load].
  apply property_own_inv in Hp.
  destruct (decide (status p = purchased)); [left; apply stored_after_load|].
  destruct (find _ (rates p)) as [r|]; [|left; apply stored_after_load].
  cbv zeta.
  destruct (shipment_buy h shipmentId rateId) as [bought|e];
    [|left; cbn [snd disk logged]; apply stored_after_load].
  destruct (write_error w);
    [left; cbn [snd disk logged tick]; apply stored_after_load|].
  right. eexists p, _. split; [exact Hp|]. split; reflexivity.
Qed.

Lemma cancelShipment_stored h shipmentId w :
  stored (disk (snd (cancelShipment h shipmentId w))) = stored (disk w)
  \/ stored (disk (snd (cancelShipment h shipmentId w)))
     = delete shipmentId (stored (disk w)).
Proof.
  rewrite cancelShipment_run.
  destruct (misshapen (disk w)); [left; apply stored_after_load|]. cbv zeta.
  destruct (property (stored (disk w)) shipmentId) as [p| |];
    [| |left; apply stored_after_load];
    (destruct (decide _); [left; apply stored_after_load|]);
    (destruct (write_error w);
     [left; cbn [snd disk tick]; apply stored_after_load|right; reflexivity]).
Qed.

Lemma voidLabel_stored h shipmentId w :
  stored (disk (snd (voidLabel h shipmentId w))) = stored (disk w)
  \/ exists p,
       stored (disk w) !! shipmentId = Some p
       /\ stored (disk (snd (voidLabel h shipmentId w)))
          = <[shipmentId := mark_voided p]> (stored (disk w)).
Proof.
  rewrite voidLabel_run. cbv zeta.
  destruct (shipment_refund h shipmentId) as [refund|e]; [|left; reflexivity].
  destruct (misshapen (disk w));
    [left; cbn [snd]; now rewrite stored_after_load|].
  destruct (property (stored (disk w)) shipmentId) as [p| |] eqn:Hp.
  - apply property_own_inv in Hp.
    destruct (write_error w);
      [left; cbn [snd disk tick]; now rewrite stored_after_load|].
    right. exists p. split; [exact Hp|reflexivity].
  - left. destruct (write_error w);
      [cbn [snd disk tick]; now rewrite stored_after_load|reflexivity].
  - left. cbn [snd]. now rewrite stored_after_load.
Qed.

Lemma createShipment_stored parseFloat h options w :
  stored (disk (snd (createShipment parseFloat h options w))) = stored (disk w)
  \/ exists p,
       fst (createShipment parseFloat h options w) = Ok p
       /\ stored (disk (snd (createShipment parseFloat h options w)))
          = <[shipment_id p := p]> (stored (disk w)).
Proof.
  destruct (createShipment parseFloat h options w) as [[p|e] w'] eqn:E.
  - right. exists p. split; [reflexivity|].
    apply createShipment_inv in E
      as (address & w1 & shipment & _ & _ & _ & Hp & Hst & _).
    cbn [snd]. rewrite Hst. now subst p.
  - left. cbn [snd]. now rewrite (createShipment_fail_clean _ _ _ _ _ _ E).
Qed.

(** X12. What a record keeps. Through [buyLabel], [cancelShipment],
    [getRates] and [voidLabel] a record that is still stored keeps its
    identifier, creation time, order reference, addresses, parcel and
    rates; through all but [buyLabel] it also keeps its tracking code and
    label URL. Through [createShipment] a stored record is as it was, or is
    replaced by the record the call returns. *)
Theorem stored_record_kept parseFloat h op w shipmentId p p' :
  stored (disk w) !! shipmentId = Some p ->
  stored (disk (step parseFloat h op w)) !! shipmentId = Some p' ->
  match op with
  | Create options =>
      p' = p \/ fst (createShipment parseFloat h options w) = Ok p'
  | Buy _ _ => same_quote p p'
  | Cancel _ | Rates _ | Void _ =>
      same_quote p p'
      /\ trackingCode p' = trackingCode p /\ labelUrl p' = labelUrl p
  end.
Proof.
  intros Hp Hp'.
  assert (Hsame : forall q, same_quote q q) by (intros q; repeat split).
  assert (Hkept : stored (disk (step parseFloat h op w)) = stored (disk w) ->
                  p' = p).
  { intros E. rewrite E in Hp'. congruence. }
  destruct op as [options|sid rid|sid|sid|sid]; cbn [step] in *.
  - destruct (createShipment_stored parseFloat h options w)
      as [E|(q & Hq & E)]; [left; auto|].
    rewrite E in Hp'.
    destruct (decide (shipment_id q = shipmentId)) as [<-|Hne].
    + right. rewrite lookup_insert_eq in Hp'. congruence.
    + left. rewrite lookup_insert_ne in Hp' by assumption. congruence.
  - destruct (buyLabel_stored h sid rid w) as [E|(q & label & Hq & _ & E)];
      [rewrite (Hkept E); auto|].
    rewrite E in Hp'.
    destruct (decide (sid = shipmentId)) as [<-|Hne].
    + rewrite lookup_insert_eq in Hp'. injection Hp' as <-.
      replace q with p by congruence. repeat split.
    + rewrite lookup_insert_ne in Hp' by assumption.
      replace p' with p by congruence. auto.
  - destruct (cancelShipment_stored h sid w) as [E|E];
      [rewrite (Hkept E); auto|].
    rewrite E in Hp'.
    destruct (decide (sid = shipmentId)) as [<-|Hne].
    + rewrite lookup_delete_eq in Hp'. discriminate.
    + rewrite lookup_delete_ne in Hp' by assumption.
      replace p' with p by congruence. auto.
  - rewrite (Hkept (getRates_stored h sid w)). auto.
  - destruct (voidLabel_stored h sid w) as [E|(q & Hq & E)];
      [rewrite (Hkept E); auto|].
    rewrite E in Hp'.
    destruct (decide (sid = shipmentId)) as [<-|Hne].
    + rewrite lookup_insert_eq in Hp'. injection Hp' as <-.
      replace q with p by congruence. repeat split.
    + rewrite lookup_insert_ne in Hp' by assumption.
      replace p' with p by congruence. auto.
Qed.

Lemma stored_record_kept_witness :
  exists p',
    stored (disk Sample.refunded) !! "shp_1" = Some p'
    /\ rates p' = [Sample.rate_std; Sample.rate_exp]
    /\ trackingCode p' = Some "1Z999AA10123456784".
Proof.
  destruct (stored (disk Sample.refunded) !! "shp_1") as [p'|] eqn:Hp';
    [|vm_compute in Hp'; discriminate Hp'].
  destruct (stored (disk Sample.bought) !! "shp_1") as [p|] eqn:Hp;
    [|vm_compute in Hp; discriminate Hp].
  destruct (stored_record_kept Sample.parseFloat Sample.host (Void "shp_1")
              Sample.bought "shp_1" p p' Hp Hp')
    as ((_ & _ & _ & _ & _ & _ & Hrates) & Htrack & _).
  exists p'. split; [reflexivity|].
  rewrite Hrates, Htrack. vm_compute in Hp. injection Hp as <-.
  split; reflexivity.
Defined.

(** X13. The external calls of the other operations: [getRates] and
    [cancelShipment] call no external service, and [getRates] leaves the
    backing file as it is; [voidLabel] calls the refund endpoint exactly
    once, whatever the local store holds for the identifier (no record, or
    a record of any status), and calls nothing else. *)
Theorem calls_of_operations h shipmentId w :
  calls (snd (getRates h shipmentId w)) = calls w
  /\ disk (snd (getRates h shipmentId w)) = disk w
  /\ calls (snd (cancelShipment h shipmentId w)) = calls w
  /\ calls (snd (voidLabel h shipmentId w)) = calls w ++ [ShipmentRefund shipmentId].
Proof.
  rewrite getRates_run, cancelShipment_run, voidLabel_run.
  split; [|split; [|split]].
  - destruct (misshapen (disk w)); [apply after_load_calls|].
    destruct (property (stored (disk w)) shipmentId); apply after_load_calls.
  - destruct (misshapen (disk w)); [apply after_load_disk|].
    destruct (property (stored (disk w)) shipmentId); apply after_load_disk.
  - destruct (misshapen (disk w)); [apply after_load_calls|]. cbv zeta.
    destruct (property (stored (disk w)) shipmentId) as [p| |];
      [| |apply after_load_calls];
      (destruct (decide _); [apply after_load_calls|]);
      destruct (write_error w); cbn [snd calls write tick];
      apply after_load_calls.
  - cbv zeta. destruct (shipment_refund h shipmentId); [|reflexivity].
    destruct (misshapen (disk w)); [cbn [snd]; now rewrite after_load_calls|].
    destruct (property (stored (disk w)) shipmentId);
      try destruct (write_error w); cbn [snd calls write tick];
      now rewrite after_load_calls.
Qed.

(** ** listPending *)

Section NewestFirst.
Context {A : Type}.
Variable key : A -> float.

Let comparefn (a b : A) : float := key b - key a.
Let le (a b : A) : Prop := (key b <=? key a) = true.
Let keyed (a : A) : Prop := is_nan (key a) = false.

Lemma sort_insert_descending a l :
  keyed a -> Forall keyed l ->
  StronglySorted le l -> StronglySorted le (sort_insert comparefn a l).
Proof.
  intros Ha Hl Hs. induction Hs as [|b l Hs IH Hb]; cbn [sort_insert].
  - repeat constructor.
  - apply Forall_cons in Hl as [Hkb Hl]. unfold comparefn at 1.
    rewrite sub_positive by assumption.
    destruct (key a <? key b) eqn:Hlt.
    + constructor; [auto|].
      apply sort_insert_Forall. constructor; [|assumption].
      now apply ltb_leb.
    + assert (Hab : le a b).
      { unfold le. rewrite ltb_negb_leb in Hlt by assumption.
        now apply negb_false_iff in Hlt. }
      constructor; [now constructor|].
      constructor; [assumption|].
      eapply Forall_impl; [exact Hb|].
      intros c Hbc. unfold le in *. eapply leb_trans; eassumption.
Qed.

Lemma sort_descending l :
  Forall keyed l -> StronglySorted le (sort comparefn l).
Proof.
  induction l as [|a l IH]; intros Hl; [constructor|].
  apply Forall_cons in Hl as [Ha Hl]. unfold sort in *. cbn [foldr].
  apply sort_insert_descending; auto. now apply sort_Forall.
Qed.

End NewestFirst.

Lemma listPending_run getTime Object_values h w :
  listPending getTime Object_values h w
  = if misshapen (disk w) then
      (Throw (TypeError "Cannot convert undefined or null to object"),
       after_load w)
    else
      (Ok (sort (newest_first getTime)
             (List.filter (fun s => bool_decide (status s = pending))
                (Object_values (stored (disk w))))),
       after_load w).
Proof.
  unfold listPending, bind at 1. rewrite loadState_run.
  unfold bind, values_of. rewrite loaded_shipments.
  destruct (misshapen (disk w)); reflexivity.
Qed.

Lemma elem_of_filter_pending (q : PendingShipment) l :
  q ∈ List.filter (fun s => bool_decide (status s = pending)) l
  <-> q ∈ l /\ status q = pending.
Proof.
  rewrite !list_elem_of_In, List.filter_In, bool_decide_eq_true. reflexivity.
Qed.

Lemma listed_iff getTime Object_values h w q :
  (forall m, Object_values m ≡ₚ (map_to_list m).*2) ->
  (exists l, fst (listPending getTime Object_values h w) = Ok l /\ q ∈ l)
  <-> (exists shipmentId,
         stored (disk w) !! shipmentId = Some q /\ status q = pending).
Proof.
  intros Hvalues. rewrite listPending_run.
  destruct (misshapen (disk w)) eqn:Hm; cbn [fst].
  { split; [intros (l & [=] & _)|].
    intros (sid & Hq & _). apply stored_shapely in Hq. congruence. }
  split.
  - intros (l & [= <-] & Hq).
    rewrite sort_perm, elem_of_filter_pending, Hvalues in Hq.
    destruct Hq as [Hq Hs].
    apply list_elem_of_fmap in Hq as ([sid q'] & -> & Hq).
    apply elem_of_map_to_list in Hq. eauto.
  - intros (sid & Hq & Hs). eexists. split; [reflexivity|].
    rewrite sort_perm, elem_of_filter_pending, Hvalues. split; [|exact Hs].
    apply list_elem_of_fmap. exists (sid, q). split; [reflexivity|].
    now apply elem_of_map_to_list.
Qed.

(** X14. [listPending] calls no external service and leaves the backing
    file as it is. On a state file that holds JSON without a shipment
    mapping it throws a [TypeError]. On every other file it returns a list
    and, when [Object.values] enumerates each entry of the mapping once,
    the list holds the stored records whose status is [pending], each one
    once, and nothing else. *)
Theorem listPending_lists_pending getTime Object_values h w :
  (forall m, Object_values m ≡ₚ (map_to_list m).*2) ->
  if misshapen (disk w) then
    exists msg w',
      listPending getTime Object_values h w = (Throw (TypeError msg), w')
      /\ disk w' = disk w /\ calls w' = calls w
  else
    exists l w',
      listPending getTime Object_values h w = (Ok l, w')
      /\ disk w' = disk w /\ calls w' = calls w
      /\ l ≡ₚ List.filter (fun s => bool_decide (status s = pending))
                (map_to_list (stored (disk w))).*2
      /\ (forall q,
            q ∈ l <-> exists shipmentId,
                        stored (disk w) !! shipmentId = Some q
                        /\ status q = pending).
Proof.
  intros Hvalues.
  pose proof (fun q => listed_iff getTime Object_values h w q Hvalues) as Hiff.
  rewrite listPending_run in Hiff |- *.
  destruct (misshapen (disk w)).
  { eexists _, _. split; [reflexivity|].
    split; [apply after_load_disk|apply after_load_calls]. }
  eexists _, _.
  split; [reflexivity|]. split; [apply after_load_disk|].
  split; [apply after_load_calls|]. split.
  - rewrite sort_perm.
    assert (Hfilter : forall l1 l2 : list PendingShipment,
               l1 ≡ₚ l2 ->
               List.filter (fun s => bool_decide (status s = pending)) l1
               ≡ₚ List.filter (fun s => bool_decide (status s = pending)) l2).
    { intros l1 l2 Hperm.
      induction Hperm as [|x l1 l2 _ IH|x y l0|l1 l2 l3 _ IH1 _ IH2]; cbn.
      - reflexivity.
      - destruct (bool_decide (status x = pending)); [now rewrite IH|exact IH].
      - destruct (bool_decide (status x = pending)),
          (bool_decide (status y = pending)); try reflexivity.
        apply Permutation_swap.
      - now rewrite IH1. }
    apply Hfilter, Hvalues.
  - intros q. specialize (Hiff q). cbn [fst] in Hiff.
    rewrite <- Hiff. split.
    + intros Hq. eauto.
    + intros (l & [= <-] & Hq). exact Hq.
Qed.

Lemma listPending_lists_pending_witness :
  (exists l,
     fst (listPending Outage.getTime Outage.values Sample.host Sample.quoted) = Ok l
     /\ Sample.created ∈ l)
  /\ (exists msg,
        fst (listPending Outage.getTime Outage.values Sample.host Outage.bare)
        = Throw (TypeError msg)).
Proof.
  split.
  - destruct (listPending_lists_pending Outage.getTime Outage.values Sample.host
                Sample.quoted (fun m => reflexivity _))
      as (l & w' & E & _ & _ & _ & Hiff).
    exists l. split; [now rewrite E|].
    apply Hiff. exists "shp_1". split; [vm_compute|]; reflexivity.
  - destruct (listPending_lists_pending Outage.getTime Outage.values Sample.host
                Outage.bare (fun m => reflexivity _)) as (msg & w' & E & _).
    exists msg. now rewrite E.
Defined.

(** X15. When the creation times of the listed records parse to a number,
    the list [listPending] returns is ordered newest first. *)
Theorem listPending_newest_first getTime Object_values h w l w' :
  listPending getTime Object_values h w = (Ok l, w') ->
  Forall (timed getTime) l ->
  StronglySorted (newer_or_equal getTime) l.
Proof.
  rewrite listPending_run.
  destruct (misshapen (disk w)); [discriminate|]. intros [= <- _] Ht.
  apply sort_Forall in Ht.
  exact (sort_descending (fun p => getTime (createdAt p)) _ Ht).
Qed.

Lemma listPending_newest_first_witness :
  exists l,
    fst (listPending Outage.getTime Outage.values Sample.host Outage.two_quotes)
    = Ok l
    /\ map shipment_id l = ["shp_2"; "shp_1"]
    /\ StronglySorted (newer_or_equal Outage.getTime) l.
Proof.
  destruct (listPending Outage.getTime Outage.values Sample.host Outage.two_quotes)
    as [[l|e] w'] eqn:E; [|vm_compute in E; discriminate E].
  pose proof E as E0. vm_compute in E0. injection E0 as Hl _.
  exists l. split; [reflexivity|]. split; [now rewrite <- Hl|].
  apply (listPending_newest_first _ _ _ _ _ _ E).
  rewrite <- Hl. repeat constructor.
Defined.

(** ** The stages, composed *)

(** X16. The listing follows the workflow: the record a successful
    [createShipment] returns is listed by [listPending]; after a successful
    [buyLabel], or a [cancelShipment] that reports success, the records
    listed are the pending records that were stored under the other
    identifiers. *)
Theorem listPending_follows getTime Object_values parseFloat h h' w :
  (forall m, Object_values m ≡ₚ (map_to_list m).*2) ->
  (forall options p w',
     createShipment parseFloat h options w = (Ok p, w') ->
     exists l, fst (listPending getTime Object_values h' w') = Ok l /\ p ∈ l)
  /\ (forall shipmentId rateId label w',
        buyLabel h shipmentId rateId w = (Ok label, w') ->
        forall q,
          (exists l, fst (listPending getTime Object_values h' w') = Ok l /\ q ∈ l)
          <-> exists other,
                other <> shipmentId
                /\ stored (disk w) !! other = Some q /\ status q = pending)
  /\ (forall shipmentId r w',
        cancelShipment h shipmentId w = (Ok r, w') ->
        success r = true ->
        forall q,
          (exists l, fst (listPending getTime Object_values h' w') = Ok l /\ q ∈ l)
          <-> exists other,
                other <> shipmentId
                /\ stored (disk w) !! other = Some q /\ status q = pending).
Proof.
  intros Hvalues. split; [|split].
  - intros options p w' E.
    apply createShipment_inv in E
      as (address & w1 & shipment & _ & _ & _ & Hp & Hst & _).
    apply listed_iff; [exact Hvalues|].
    exists (api_id shipment). rewrite Hst, lookup_insert_eq.
    split; [reflexivity|]. subst p. reflexivity.
  - intros sid rid label w' E q.
    rewrite (listed_iff _ _ _ _ _ Hvalues).
    pose proof (buyLabel_records _ _ _ _ _ _ E) as (p' & Hp' & Hs' & _).
    assert (Hother : forall other,
               other <> sid ->
               stored (disk w') !! other = stored (disk w) !! other).
    { intros other Hne.
      destruct (buyLabel_stored h sid rid w) as [Hst|(p & l & _ & _ & Hst)];
        rewrite E in Hst; cbn [snd] in Hst; rewrite Hst; [reflexivity|].
      now apply lookup_insert_ne. }
    split.
    + intros (other & Hq & Hs). exists other.
      destruct (decide (other = sid)) as [->|Hne].
      * rewrite Hp' in Hq. injection Hq as <-. rewrite Hs' in Hs. discriminate.
      * rewrite Hother in Hq by assumption. auto.
    + intros (other & Hne & Hq & Hs). exists other.
      rewrite Hother by assumption. auto.
  - intros sid r w' E Hsuccess q.
    rewrite (listed_iff _ _ _ _ _ Hvalues).
    rewrite cancelShipment_run in E.
    assert (Hst : stored (disk w') = delete sid (stored (disk w))).
    { destruct (misshapen (disk w)); [discriminate|]. cbv zeta in E.
      destruct (property (stored (disk w)) sid) as [p| |];
        [| |injection E as <- _; discriminate Hsuccess];
        (destruct (decide _);
         [injection E as <- _; discriminate Hsuccess|]);
        (destruct (write_error w); [discriminate|]);
        injection E as _ <-; apply stored_write. }
    rewrite Hst. split.
    + intros (other & Hq & Hs). exists other.
      apply lookup_delete_Some in Hq as [Hne Hq]. auto.
    + intros (other & Hne & Hq & Hs). exists other.
      rewrite lookup_delete_ne by auto. auto.
Qed.

Lemma listPending_follows_witness :
  (exists l,
     fst (listPending Outage.getTime Outage.values Sample.host Sample.quoted) = Ok l
     /\ Sample.created ∈ l)
  /\ ~ (exists l,
          fst (listPending Outage.getTime Outage.values Sample.host Sample.bought)
          = Ok l
          /\ Sample.created ∈ l).
Proof.
  destruct (listPending_follows Outage.getTime Outage.values Sample.parseFloat
              Sample.host Sample.host Sample.first_run (fun m => reflexivity _))
    as (Hcreate & _ & _).
  destruct (listPending_follows Outage.getTime Outage.values Sample.parseFloat
              Sample.host Sample.host Sample.quoted (fun m => reflexivity _))
    as (_ & Hbuy & _).
  split.
  - apply (Hcreate (Sample.options (Some "ups"))). vm_compute. reflexivity.
  - intros Hlisted.
    apply (Hbuy "shp_1" "rate_std"
             {| label_trackingCode := "1Z999AA10123456784";
                label_labelUrl := Some "https://labels.example/shp_1.png";
                label_carrier := Some "UPS";
                label_service := "Standard";
                label_rate := "9.99";
                label_currency := "GBP" |} Sample.bought) in Hlisted;
      [|vm_compute; reflexivity].
    destruct Hlisted as (other & Hne & Hq & _).
    destruct (decide (other = "shp_1")) as [->|Hother]; [contradiction|].
    assert (Hst : stored (disk Sample.quoted) = <["shp_1" := Sample.created]> ∅)
      by (vm_compute; reflexivity).
    rewrite Hst, lookup_insert_ne, lookup_empty in Hq by auto.
    discriminate Hq.
Defined.

(** X17. A rate identifier taken from the rates a successful
    [createShipment] returned passes the checks of [buyLabel] on the new
    shipment: the purchase endpoint is called and decides. When it answers,
    the label carries its tracking code and the record becomes [purchased];
    when it throws, the error is that of the call and the record stays
    [pending]. *)
Theorem createShipment_then_buyLabel parseFloat h h' options w p w' rateId :
  createShipment parseFloat h options w = (Ok p, w') ->
  rateId ∈ map id (rates p) ->
  match shipment_buy h' (shipment_id p) rateId with
  | Ok bought =>
      exists label w'',
        buyLabel h' (shipment_id p) rateId w' = (Ok label, w'')
        /\ label_trackingCode label = tracking_code bought
        /\ status_of w'' (shipment_id p) = Some purchased
  | Throw e =>
      buyLabel h' (shipment_id p) rateId w'
      = (Throw e, logged (ShipmentBuy (shipment_id p) rateId) w')
      /\ status_of w' (shipment_id p) = Some pending
  end.
Proof.
  intros E Hin.
  pose proof (createShipment_wrote _ _ _ _ _ _ E) as (_ & _ & _ & Hwritable).
  apply createShipment_inv in E
    as (address & w1 & shipment & _ & _ & _ & Hp & Hst & _).
  assert (Hid : shipment_id p = api_id shipment) by (subst p; reflexivity).
  assert (Hstatus : status p = pending) by (subst p; reflexivity).
  assert (Hlook : stored (disk w') !! shipment_id p = Some p)
    by (rewrite Hst, Hid; apply lookup_insert_eq).
  destruct (find_rate_in _ _ Hin) as [r Hr].
  rewrite buyLabel_run, (stored_shapely _ _ _ Hlook),
    (property_own _ _ _ Hlook), (after_load_present _ _ _ Hlook), Hr.
  destruct (decide (status p = purchased)) as [Hpur|_]; [congruence|].
  cbv zeta. rewrite Hwritable.
  destruct (shipment_buy h' (shipment_id p) rateId) as [bought|e].
  - eexists _, _. split; [reflexivity|]. split; [reflexivity|].
    unfold status_of. now rewrite stored_write, lookup_insert_eq.
  - split; [reflexivity|]. unfold status_of. rewrite Hlook. cbn.
    now rewrite Hstatus.
Qed.

Lemma createShipment_then_buyLabel_witness :
  (exists label w'',
     buyLabel Sample.host "shp_1" "rate_exp" Sample.quoted = (Ok label, w'')
     /\ label_trackingCode label = "1Z999AA10123456784"
     /\ status_of w'' "shp_1" = Some purchased)
  /\ buyLabel Outage.host "shp_1" "rate_exp" Sample.quoted
     = (Throw (Error "Insufficient funds"),
        logged (ShipmentBuy "shp_1" "rate_exp") Sample.quoted).
Proof.
  assert (Hin : "rate_exp" ∈ map id (rates Sample.created))
    by (right; left).
  split.
  - exact (createShipment_then_buyLabel Sample.parseFloat Sample.host Sample.host
             (Sample.options (Some "ups")) Sample.first_run Sample.created
             Sample.quoted "rate_exp" createShipment_sample Hin).
  - exact (proj1 (createShipment_then_buyLabel Sample.parseFloat Sample.host
                    Outage.host (Sample.options (Some "ups")) Sample.first_run
                    Sample.created Sample.quoted "rate_exp"
                    createShipment_sample Hin)).
Defined.

(** ** The create-shipment command *)

Lemma spread_string_not_blank s : not_blank (spread_string s).
Proof.
  unfold spread_string. destruct (truthy s) eqn:Hs; [now apply truthy_not_blank|].
  discriminate.
Qed.

Lemma spread_inches_spread_num x :
  spread_inches (spread_num x) = cmToInches <$> spread_num x.
Proof.
  destruct x as [v|]; cbn; [|reflexivity].
  destruct (truthy_num v) eqn:Hv; cbn; [|reflexivity]. now rewrite Hv.
Qed.

(** X18. What reaches [createShipment] from the command line. The options
    never hold an empty [orderId] or an empty carrier filter, and every
    dimension they hold is sent to the carrier, in inches. With an order
    identifier the manual address options are dropped and the destination is
    that of the order. Without one, for arguments that passed the
    refinement of the schema, the destination is the manual address, with
    non-empty street, city and postal code and a state that defaults to the
    empty string. In no case is the missing-destination error of
    [createShipment] thrown. *)
Theorem create_shipment_command_options h args w :
  not_blank (orderId (createOptions args))
  /\ not_blank (carrier_filter (createOptions args))
  /\ (forall address,
        let sent := api_parcel (shipmentParams h address (createOptions args)) in
        api_length sent = cmToInches <$> length (parcel (createOptions args))
        /\ api_width sent = cmToInches <$> width (parcel (createOptions args))
        /\ api_height sent = cmToInches <$> height (parcel (createOptions args)))
  /\ (forall order,
        arg_orderId args = Some order -> order <> "" ->
        toAddress (createOptions args) = None
        /\ destination h (createOptions args) w
           = fetchShopifyOrderAddress h order w)
  /\ (truthy (arg_orderId args) = false ->
      createShipmentSchema_refine args = true ->
      exists address,
        destination h (createOptions args) w = (Ok address, w)
        /\ toStreet1 args = Some (street1 address) /\ street1 address <> ""
        /\ toCity args = Some (city address) /\ city address <> ""
        /\ toZip args = Some (zip address) /\ zip address <> ""
        /\ is_Some (state address)
        /\ country address = toCountry args)
  /\ (forall e w',
        destination h (createOptions args) w = (Throw e, w') ->
        e <> Error MISSING_DESTINATION).
Proof.
  split; [apply spread_string_not_blank|].
  split; [apply spread_string_not_blank|].
  split; [intros address; cbn; rewrite !spread_inches_spread_num; auto|].
  assert (Hsome : forall s, truthy s = true -> exists v, s = Some v /\ v <> "").
  { intros [v|]; cbn; [|discriminate].
    destruct (String.eqb_spec v ""); [discriminate|eauto]. }
  split; [|split].
  - intros order Ho Hne.
    assert (Ht : truthy (arg_orderId args) = true).
    { rewrite Ho. cbn. now destruct (String.eqb_spec order ""). }
    unfold destination, createOptions, spread_string.
    cbn [orderId toAddress]. rewrite Ht, Ht, Ho. auto.
  - intros Ho Hrefine. unfold createShipmentSchema_refine in Hrefine.
    rewrite Ho in Hrefine. cbn [orb] in Hrefine.
    apply andb_prop in Hrefine as [Hrefine Hz].
    apply andb_prop in Hrefine as [Hs Hc].
    destruct (Hsome _ Hs) as (s & Hs' & Hsne).
    destruct (Hsome _ Hc) as (c & Hc' & Hcne).
    destruct (Hsome _ Hz) as (z & Hz' & Hzne).
    unfold destination, createOptions, spread_string.
    cbn [orderId toAddress]. rewrite Ho. cbn [truthy].
    eexists. split; [reflexivity|]. cbn [street1 city zip state country].
    rewrite Hs', Hc', Hz'. cbn [default]. repeat split; auto.
    unfold or_else. destruct (truthy (toState args)) eqn:Hst; [|eauto].
    destruct (Hsome _ Hst) as (v & -> & _). eauto.
  - intros e w'. unfold destination, createOptions, spread_string.
    cbn [orderId toAddress].
    destruct (truthy (arg_orderId args)) eqn:Ho.
    + rewrite Ho. intros E.
      eapply fetchShopifyOrderAddress_message. exact E.
    + cbn [truthy]. discriminate.
Qed.

Lemma create_shipment_command_options_witness :
  (toAddress (createOptions Outage.order_args) = None
   /\ destination Sample.host (createOptions Outage.order_args) Sample.first_run
      = fetchShopifyOrderAddress Sample.host "1001" Sample.first_run)
  /\ exists address,
       destination Sample.host (createOptions Outage.manual_args) Sample.first_run
       = (Ok address, Sample.first_run)
       /\ street1 address = "123 Main Street"
       /\ state address = Some "".
Proof.
  destruct (create_shipment_command_options Sample.host Outage.order_args
              Sample.first_run) as (_ & _ & _ & Horder & _ & _).
  destruct (create_shipment_command_options Sample.host Outage.manual_args
              Sample.first_run) as (_ & _ & _ & _ & Hmanual & _).
  split.
  - apply Horder; [reflexivity|discriminate].
  - destruct Hmanual as (address & Hd & Hs & _); [reflexivity|reflexivity|].
    exists address. split; [exact Hd|].
    cbn in Hd. injection Hd as <-. split; reflexivity.
Defined.

(** ** What the operations never do *)

(** X19. Each external endpoint is reached from one operation only: a call
    an operation adds to the log is a purchase only for [buyLabel], with
    the identifiers of the call; a refund only for [voidLabel], with its
    identifier; a rate request or an order lookup only for
    [createShipment], the lookup for its [orderId]. In particular quoting,
    listing rates, cancelling and voiding never purchase. *)
Theorem endpoints_by_operation parseFloat h op w c :
  c ∈ calls (step parseFloat h op w) ->
  c ∈ calls w \/ allowed_call op c.
Proof.
  destruct op as [options|sid rid|sid|sid|sid]; cbn [step].
  - rewrite createShipment_run.
    pose proof (destination_calls h options w) as Hd.
    assert (Hin1 : forall w1,
               (calls w1 = calls w
                \/ exists order,
                     orderId options = Some order
                     /\ calls w1 = calls w ++ [GetOrder order]) ->
               c ∈ calls w1 -> c ∈ calls w \/ allowed_call (Create options) c).
    { intros w1 [->|(order & Ho & ->)]; [auto|].
      rewrite elem_of_app, list_elem_of_singleton. intros [H| ->]; [auto|].
      right. exact Ho. }
    assert (Hin2 : forall w1 params,
               (calls w1 = calls w
                \/ exists order,
                     orderId options = Some order
                     /\ calls w1 = calls w ++ [GetOrder order]) ->
               c ∈ calls w1 ++ [ShipmentCreate params] ->
               c ∈ calls w \/ allowed_call (Create options) c).
    { intros w1 params Hw1.
      rewrite elem_of_app, list_elem_of_singleton. intros [H| ->]; [eauto|].
      right. exact I. }
    destruct (destination h options w) as [[address|e] w1]; cbn [snd] in *;
      [|now apply Hin1].
    cbv zeta.
    destruct (shipment_create h (shipmentParams h address options))
      as [shipment|e]; cbn [snd]; [|now apply Hin2].
    destruct (extract_rates parseFloat h options shipment); cbn [snd];
      [now apply Hin2|].
    destruct (misshapen (disk w1)); [|destruct (write_error w1)];
      cbn [snd calls write tick]; rewrite after_load_calls; now apply Hin2.
  - pose proof (buyLabel_run h sid rid w) as Hrun.
    assert (Hcases : calls (snd (buyLabel h sid rid w)) = calls w
                     \/ calls (snd (buyLabel h sid rid w))
                        = calls w ++ [ShipmentBuy sid rid]).
    { rewrite Hrun.
      destruct (misshapen (disk w)); [left; apply after_load_calls|].
      destruct (property (stored (disk w)) sid) as [p| |]; cbn [snd];
        [|left; apply after_load_calls|left; apply after_load_calls].
      destruct (decide (status p = purchased)); cbn [snd];
        [left; apply after_load_calls|].
      destruct (find _ (rates p)); cbn [snd]; [|left; apply after_load_calls].
      right. cbv zeta.
      destruct (shipment_buy h sid rid); [destruct (write_error w)|];
        cbn [snd calls write logged tick]; now rewrite after_load_calls. }
    destruct Hcases as [-> | ->]; [auto|].
    rewrite elem_of_app, list_elem_of_singleton. intros [H| ->]; [auto|].
    right. split; reflexivity.
  - rewrite cancelShipment_run.
    destruct (misshapen (disk w)); [cbn [snd]; rewrite after_load_calls; auto|].
    cbv zeta.
    destruct (property (stored (disk w)) sid) as [p| |];
      [| |cbn [snd]; rewrite after_load_calls; auto];
      (destruct (decide _); [cbn [snd]; rewrite after_load_calls; auto|]);
      destruct (write_error w); cbn [snd calls write tick];
      rewrite after_load_calls; auto.
  - rewrite getRates_run.
    destruct (misshapen (disk w)); [cbn [snd]; rewrite after_load_calls; auto|].
    destruct (property (stored (disk w)) sid); cbn [snd];
      rewrite after_load_calls; auto.
  - rewrite voidLabel_run.
    assert (Hcalls : forall w1,
               calls w1 = calls w ++ [ShipmentRefund sid] ->
               c ∈ calls w1 -> c ∈ calls w \/ allowed_call (Void sid) c).
    { intros w1 ->. rewrite elem_of_app, list_elem_of_singleton.
      intros [H| ->]; [auto|]. right. reflexivity. }
    cbv zeta.
    destruct (shipment_refund h sid); cbn [snd]; [|now apply Hcalls].
    apply Hcalls.
    destruct (misshapen (disk w)); [cbn [snd]; now rewrite after_load_calls|].
    destruct (property (stored (disk w)) sid);
      try destruct (write_error w); cbn [snd calls write tick];
      now rewrite after_load_calls.
Qed.

Lemma endpoints_by_operation_witness :
  ShipmentRefund "shp_1" ∈ calls Sample.bought
  \/ allowed_call (Void "shp_1") (ShipmentRefund "shp_1").
Proof.
  apply (endpoints_by_operation Sample.parseFloat Sample.host (Void "shp_1")
           Sample.bought).
  vm_compute. do 2 right. left.
Defined.

(** X20. A cancelled shipment is gone for the whole workflow: for an
    identifier that is not a name every object inherits, after a
    [cancelShipment] that reports success, [buyLabel] on the identifier
    throws the not-found error without calling the purchase endpoint, and a
    second [cancelShipment] reports failure; both leave the backing file as
    the first cancellation left it. *)
Theorem cancelShipment_then h h' shipmentId rateId w r w' :
  inherited shipmentId = false ->
  cancelShipment h shipmentId w = (Ok r, w') ->
  success r = true ->
  buyLabel h' shipmentId rateId w'
  = (Throw (Error ("Shipment " +:+ shipmentId
                   +:+ " not found in pending shipments")), w')
  /\ cancelShipment h' shipmentId w'
     = (Ok {| success := false;
              message := "Shipment " +:+ shipmentId +:+ " not found" |}, w').
Proof.
  intros Hplain. rewrite cancelShipment_run. intros E Hsuccess.
  assert (Hw' : w' = write h (delete shipmentId (stored (disk w))) (after_load w)).
  { destruct (misshapen (disk w)); [discriminate|]. cbv zeta in E.
    destruct (property (stored (disk w)) shipmentId) as [p| |];
      [| |injection E as <- _; discriminate Hsuccess];
      (destruct (decide _); [injection E as <- _; discriminate Hsuccess|]);
      (destruct (write_error w); [discriminate|]);
      now injection E as _ <-. }
  subst w'.
  rewrite buyLabel_run, cancelShipment_run, misshapen_write, stored_write.
  cbv zeta. rewrite (property_plain _ _ Hplain), lookup_delete_eq.
  split; reflexivity.
Qed.

Lemma cancelShipment_then_witness :
  fst (buyLabel Sample.host "shp_1" "rate_std"
         (snd (cancelShipment Sample.host "shp_1" Sample.quoted)))
  = Throw (Error "Shipment shp_1 not found in pending shipments").
Proof.
  destruct (cancelShipment_then Sample.host Sample.host "shp_1" "rate_std"
              Sample.quoted
              {| success := true;
                 message := "Shipment cancelled. No charges incurred." |}
              (snd (cancelShipment Sample.host "shp_1" Sample.quoted)))
    as [Hbuy _].
  - reflexivity.
  - vm_compute. reflexivity.
  - reflexivity.
  - now rewrite Hbuy.
Defined.

(** ** Rates of equal price *)







